(** * The app-store admin backend (src/app.py): catalog visibility,
      ownership, quota and SN-registry checks.

    The Flask handlers are embedded as functions over an explicit snapshot
    of the three JSON stores (apps.json, config.json, sn_access_control.json).
    A handler returns its outcome together with the stores as it leaves
    them and the random source as it leaves it; a redirect is represented
    by the case its message reports.

    Outside the model: failures of the file system and of the object store,
    interleaving of concurrent requests, the rendering of pages, and the
    limit the interpreter puts on the length of a decimal text given to
    [int]. *)

From Stdlib Require Import ZArith Ascii DecimalString.
From Stdlib Require DecimalZ.
From stdpp Require Import gmap strings list fin_maps.

Local Open Scope Z_scope.

(** ** Text

    Python text is modelled by [string]; a character stands for the code
    point of the same number (0..255). *)

Module Text.

Definition code (c : ascii) : Z := Z.of_N (N_of_ascii c).

(** [str.isspace] on one character: TAB..CR, FS..US, SPACE, NEL, NBSP. *)
Definition isspace (c : ascii) : bool :=
  let n := code c in
  ((9 <=? n) && (n <=? 13)) || ((28 <=? n) && (n <=? 32))
  || (n =? 133) || (n =? 160).

(** ASCII decimal digits, the characters [int] accepts after [isdigit]. *)
Definition isdecimal (c : ascii) : bool :=
  let n := code c in (48 <=? n) && (n <=? 57).

(** [str.isdigit] on one character: the decimal digits and the
    superscripts two, three and one. *)
Definition isdigit_char (c : ascii) : bool :=
  let n := code c in
  isdecimal c || (n =? 178) || (n =? 179) || (n =? 185).

Fixpoint all_chars (p : ascii → bool) (s : string) : bool :=
  match s with
  | EmptyString => true
  | String c s' => p c && all_chars p s'
  end.

(** Truth value of a string: non-empty. *)
Definition truthy (s : string) : bool :=
  match s with EmptyString => false | String _ _ => true end.

(** [s.isdigit()] *)
Definition isdigit (s : string) : bool := truthy s && all_chars isdigit_char s.

Fixpoint lstrip (s : string) : string :=
  match s with
  | EmptyString => EmptyString
  | String c s' => if isspace c then lstrip s' else s
  end.

Fixpoint rstrip (s : string) : string :=
  match s with
  | EmptyString => EmptyString
  | String c s' =>
      match rstrip s' with
      | EmptyString => if isspace c then EmptyString else String c EmptyString
      | r => String c r
      end
  end.

(** [s.strip()] *)
Definition strip (s : string) : string := rstrip (lstrip s).

(** [s.split(sep)] for a one-character separator. *)
Fixpoint split (sep : ascii) (s : string) : list string :=
  match s with
  | EmptyString => [EmptyString]
  | String c s' =>
      if decide (c = sep) then EmptyString :: split sep s'
      else match split sep s' with
           | h :: t => String c h :: t
           | [] => [String c EmptyString]
           end
  end.

Fixpoint int_go (acc : Z) (s : string) : option Z :=
  match s with
  | EmptyString => Some acc
  | String c s' =>
      if isdecimal c then int_go (10 * acc + (code c - 48)) s' else None
  end.

(** [int(s)] for a string that passed [isdigit]: [None] is the
    [ValueError] raised on a digit that is not a decimal one. *)
Definition int (s : string) : option Z := int_go 0 s.

(** [str(n)] for an integer. *)
Definition str (n : Z) : string := NilZero.string_of_int (Z.to_int n).

End Text.

(** ** The stores *)

(** One element of apps.json.  A key the handlers read holds what the
    application writes under it (a text, for id an integer, for allowedSn a
    list of texts), or null, or is lacking.  Its field is [None] when the
    key is lacking and when it holds null; [e_rest] names the keys that
    hold null and, with them, the keys the handlers never read.  [get]
    without a default reads a null and a lacking key alike, as None; [get]
    with a default does not: it is [get_with] below. *)
Record app_entry := {
  e_appId : option string;
  e_id : option Z;
  e_name : option string;
  e_appName : option string;
  e_packageName : option string;
  e_downloadUrl : option string;
  e_iconUrl : option string;
  e_size : option string;
  e_md5 : option string;
  e_desc : option string;
  e_updateTime : option string;
  e_owner : option string;
  e_allowedSn : option (list string);
  e_rest : list string
}.

(** One value of config.json's "users" object. *)
Record user := {
  password : string;
  role : option string;
  max_apps : option Z;
  owns_apps : option Z
}.

(** The three files: apps.json, the "users" of config.json and
    sn_access_control.json. *)
Record stores := {
  apps : list app_entry;
  users : gmap string user;
  sn_owners : gmap string string
}.

Definition load_apps (w : stores) : list app_entry := apps w.
Definition load_config (w : stores) : gmap string user := users w.
Definition load_sn_config (w : stores) : gmap string string := sn_owners w.

Definition save_apps (new_apps : list app_entry) (w : stores) : stores :=
  {| apps := new_apps; users := users w; sn_owners := sn_owners w |}.
Definition save_config (config : gmap string user) (w : stores) : stores :=
  {| apps := apps w; users := config; sn_owners := sn_owners w |}.
Definition save_sn_config (sn_config : gmap string string) (w : stores) : stores :=
  {| apps := apps w; users := users w; sn_owners := sn_config |}.

(** ** Requests and the random source *)

(** [clock] is what [int(time.time() * 1000)] gives while the request is
    handled. *)
Record request := {
  authorization : option (string * string);   (* username, password *)
  form : gmap string string;
  args : gmap string string;
  clock : Z
}.

(** The raw values the generator is going to yield, in order. *)
Definition rng := nat → Z.

(** [random.randint(lo, hi)]: the next raw value, brought into [lo..hi]. *)
Definition randint (lo hi : Z) (g : rng) : Z * rng :=
  (lo + g 0%nat mod (hi - lo + 1), λ n, g (S n)).

(** What a handler answers.  The first three are common to the routes: the
    401 and 403 of [has_role] and an uncaught exception. *)
Inductive outcome :=
  | LoginRequired
  | AccessDenied
  | Raised
  | MissingFileInfo
  | QuotaExceeded (max_limit : Z)
  | SnConflict (sn sn_owner : string)
  | MissingFields
  | DuplicateId (id : Z)
  | Added (app_data : app_entry)
  | MissingAppId
  | Forbidden
  | NotFound (app_id : string)
  | Deleted (app_id : string)
  | MissingSnFields
  | InvalidTarget (sn_owner : string)
  | SnAssigned (sn_code sn_owner : string)
  | SnNotFound (sn_code : option string)
  | SnReleased (sn_code : string).

Definition handler := stores → request → rng → outcome * stores * rng.

(** ** Python truth values and dictionary reads *)

(** Truth value of [d.get(k)] for a text field: present and non-empty. *)
Definition truthy_opt (o : option string) : bool :=
  match o with Some s => Text.truthy s | None => false end.

Definition present {A} (o : option A) : bool :=
  match o with Some _ => true | None => false end.

(** Truth value of an apps.json object: it has at least one key. *)
Definition dict_truthy (a : app_entry) : bool :=
  present (e_appId a) || present (e_id a) || present (e_name a)
  || present (e_appName a)
  || present (e_packageName a) || present (e_downloadUrl a)
  || present (e_iconUrl a) || present (e_size a) || present (e_md5 a)
  || present (e_desc a) || present (e_updateTime a) || present (e_owner a)
  || present (e_allowedSn a)
  || match e_rest a with [] => false | _ => true end.

(** [str(app.get("id"))] *)
Definition str_id (a : app_entry) : string :=
  match e_id a with Some n => Text.str n | None => "None" end.

(** [next((x for x in l if p(x)), None)] *)
Fixpoint next_match {A} (p : A → bool) (l : list A) : option A :=
  match l with
  | [] => None
  | x :: l' => if p x then Some x else next_match p l'
  end.

Definition eqb_str (a b : string) : bool := bool_decide (a = b).

(** ** The visibility filter *)

(** [allowed_sns is not None and len(allowed_sns) == 0] *)
Definition is_public (allowed_sns : option (list string)) : bool :=
  match allowed_sns with
  | Some l => Nat.eqb (length l) 0
  | None => false
  end.

(** [allowed_sns and client_sn in allowed_sns] *)
Definition is_whitelisted (client_sn : string) (allowed_sns : option (list string)) : bool :=
  match allowed_sns with
  | Some (sn :: l) => bool_decide (client_sn ∈ sn :: l)
  | _ => false
  end.

Definition filter_apps_by_sn (all_apps : list app_entry) (client_sn : string)
  : list app_entry :=
  let client_sn := Text.strip client_sn in
  if Text.truthy client_sn then
    fold_left
      (λ filtered_list app,
         let allowed_sns := e_allowedSn app in
         if is_public allowed_sns then filtered_list ++ [app]
         else if is_whitelisted client_sn allowed_sns then filtered_list ++ [app]
         else filtered_list)
      all_apps []
  else
    List.filter (λ app, is_public (e_allowedSn app)) all_apps.

(** ** Authentication *)

Definition get_logged_in_user (req : request) : option string :=
  fst <$> authorization req.

Definition has_role (required_role : string) (f : handler) : handler :=
  λ w req g,
    let config := load_config w in
    match authorization req with
    | None => (LoginRequired, w, g)
    | Some (username, pw) =>
        match config !! username with
        | None => (LoginRequired, w, g)
        | Some u =>
            if negb (eqb_str (password u) pw) then (LoginRequired, w, g)
            else
              let user_role := default "guest" (role u) in
              if eqb_str user_role "super"
                 && (eqb_str required_role "manager" || eqb_str required_role "super")
              then f w req g
              else if negb (eqb_str user_role required_role) then (AccessDenied, w, g)
              else f w req g
        end
    end.

(** ** Adding an app *)

Definition DEFAULT_ICON_URL : string :=
  "https://drive.idkwhatismyname.space/hFxt8p2mnpmLhBS1.png".

(** [user_data.get("role") == r], where [None] is the empty dictionary
    [config["users"].get(owner_user, {})] falls back to. *)
Definition role_is (r : string) (user_data : option user) : bool :=
  bool_decide (user_data ≫= role = Some r).

(** The loop over [sn_list]: the first SN whose registered owner is set and
    is not the requesting user, with that owner. *)
Fixpoint sn_conflict (sn_config : gmap string string) (owner_user : option string)
    (sn_list : list string) : option (string * string) :=
  match sn_list with
  | [] => None
  | sn :: rest =>
      match sn_config !! sn with
      | Some sn_owner =>
          if Text.truthy sn_owner && negb (bool_decide (Some sn_owner = owner_user))
          then Some (sn, sn_owner)
          else sn_conflict sn_config owner_user rest
      | None => sn_conflict sn_config owner_user rest
      end
  end.

(** [[sn.strip() for sn in allowed_sn_raw.split(',') if sn.strip()]] *)
Definition parse_sn_list (allowed_sn_raw : string) : list string :=
  List.filter Text.truthy (Text.strip <$> Text.split "," allowed_sn_raw).

Definition set_owns_apps (n : Z) (u : user) : user :=
  {| password := password u; role := role u; max_apps := max_apps u;
     owns_apps := Some n |}.

Definition set_id (n : Z) (a : app_entry) : app_entry :=
  {| e_appId := e_appId a; e_id := Some n; e_name := e_name a;
     e_appName := e_appName a;
     e_packageName := e_packageName a; e_downloadUrl := e_downloadUrl a;
     e_iconUrl := e_iconUrl a; e_size := e_size a; e_md5 := e_md5 a;
     e_desc := e_desc a; e_updateTime := e_updateTime a;
     e_owner := e_owner a; e_allowedSn := e_allowedSn a;
     e_rest := e_rest a |}.

(** The keys [add_app] writes with constant values. *)
Definition fixed_keys : list string :=
  ["versionName"; "versionCode"; "status"; "category";
   "publisher"; "tags"; "version"; "score"; "changelog"; "enName"].

(** The end of [add_app]: append, save, and count the app for a manager. *)
Definition append_and_count (w : stores) (owner_user : option string)
    (user_data : option user) (current_owns : Z) (app_data : app_entry) : stores :=
  let w1 := save_apps (load_apps w ++ [app_data]) w in
  if role_is "manager" user_data then
    match owner_user, user_data with
    | Some name, Some u =>
        save_config (<[name := set_owns_apps (current_owns + 1) u]> (load_config w)) w1
    | _, _ => w1
    end
  else w1.

Definition add_app : handler := λ w req g,
  let owner_user := get_logged_in_user req in
  let config := load_config w in
  let sn_config := load_sn_config w in
  let all_apps := load_apps w in
  let user_data := owner_user ≫= (config !!.) in
  let data := form req in
  let download_url := data !! "downloadUrl_hidden" in
  let file_size := data !! "size_hidden" in
  let file_md5 := data !! "md5_hidden" in
  if negb (truthy_opt download_url && truthy_opt file_size && truthy_opt file_md5)
  then (MissingFileInfo, w, g)
  else
  let current_owns := default 0 (user_data ≫= owns_apps) in
  let max_limit := default 9999 (user_data ≫= max_apps) in
  if role_is "manager" user_data && (max_limit <=? current_owns)
  then (QuotaExceeded max_limit, w, g)
  else
  let allowed_sn_raw := Text.strip (default "" (data !! "allowedSn")) in
  let sn_list := if Text.truthy allowed_sn_raw then parse_sn_list allowed_sn_raw else [] in
  match sn_conflict sn_config owner_user sn_list with
  | Some (sn, sn_owner) => (SnConflict sn sn_owner, w, g)
  | None =>
  let app_data_allowed_sn := sn_list in
  if negb (truthy_opt (data !! "appName") && truthy_opt (data !! "packageName"))
  then (MissingFields, w, g)
  else
  match data !! "id" with
  | None => (Raised, w, g)                 (* None has no strip *)
  | Some id_field =>
  let app_id_raw := Text.strip id_field in
  let drawn :=
    if Text.truthy app_id_raw && Text.isdigit app_id_raw
    then (λ n, (n, g)) <$> Text.int app_id_raw
    else Some (randint 100000 999999 g) in
  match drawn with
  | None => (Raised, w, g)                 (* ValueError of int *)
  | Some (new_id, g1) =>
  let app_data :=
    {| e_appId := Some (default "" (data !! "packageName") +:+ "-" +:+ Text.str new_id);
       e_id := Some new_id;
       e_name := None;
       (* both names are present here, by the check above: the defaults of
          their [get] are never used *)
       e_appName := data !! "appName";
       e_packageName := data !! "packageName";
       e_downloadUrl := download_url;
       e_iconUrl := Some (default DEFAULT_ICON_URL (data !! "iconUrl"));
       e_size := file_size;
       e_md5 := file_md5;
       e_desc := Some (default "" (data !! "desc"));
       e_updateTime := Some (Text.str (clock req));
       e_owner := owner_user;
       e_allowedSn := Some app_data_allowed_sn;
       e_rest := fixed_keys |} in
  if existsb (λ app, bool_decide (e_id app = Some new_id)) all_apps then
    if negb (Text.truthy app_id_raw) then
      let '(again, g2) := randint 100000 999999 g1 in
      let app_data := set_id again app_data in
      (Added app_data, append_and_count w owner_user user_data current_owns app_data, g2)
    else (DuplicateId new_id, w, g1)
  else
    (Added app_data, append_and_count w owner_user user_data current_owns app_data, g1)
  end end end.

Definition add_app_route : handler := has_role "manager" add_app.

(** ** Deleting an app *)

(** The stores after the removal is saved: the owner of the removed app, if
    a manager of config.json, gets [max(0, owns_apps - 1)], a lacking
    counter read as 1. *)
Definition decrement_owner (app_owner : option string) (w1 : stores) : stores :=
  let config := load_config w1 in
  match app_owner with
  | Some name =>
      match config !! name with
      | Some u =>
          if bool_decide (role u = Some "manager")
          then save_config
                 (<[name := set_owns_apps (Z.max 0 (default 1 (owns_apps u) - 1)) u]> config)
                 w1
          else w1
      | None => w1
      end
  | None => w1
  end.

Definition delete_app : handler := λ w req g,
  let owner_user := get_logged_in_user req in
  let app_id_to_delete := form req !! "app_id_to_delete" in
  if negb (truthy_opt app_id_to_delete) then (MissingAppId, w, g)
  else
  let app_id_to_delete := default "" app_id_to_delete in
  let all_apps := load_apps w in
  let original_count := length all_apps in
  let app_to_delete := next_match (λ app, eqb_str (str_id app) app_id_to_delete) all_apps in
  let user_role := (owner_user ≫= (load_config w !!.)) ≫= role in
  if from_option dict_truthy false app_to_delete
     && negb (bool_decide (app_to_delete ≫= e_owner = owner_user))
     && negb (bool_decide (user_role = Some "super"))
  then (Forbidden, w, g)
  else
  let new_apps_list :=
    List.filter (λ app, negb (eqb_str (str_id app) app_id_to_delete)) all_apps in
  if (length new_apps_list <? original_count)%nat then
    let w1 := save_apps new_apps_list w in
    let app_owner := app_to_delete ≫= e_owner in
    (Deleted app_id_to_delete, decrement_owner app_owner w1, g)
  else (NotFound app_id_to_delete, w, g).

Definition delete_app_route : handler := has_role "manager" delete_app.

(** ** The SN registry (super only) *)

Definition add_sn_owner : handler := λ w req g,
  match form req !! "sn_code", form req !! "sn_owner" with
  | Some code_field, Some owner_field =>
      let sn_code := Text.strip code_field in
      let sn_owner := Text.strip owner_field in
      let sn_config := load_sn_config w in
      let config := load_config w in
      if negb (Text.truthy sn_code) || negb (Text.truthy sn_owner)
      then (MissingSnFields, w, g)
      else if negb (role_is "manager" (config !! sn_owner))
      then (InvalidTarget sn_owner, w, g)
      else (SnAssigned sn_code sn_owner,
            save_sn_config (<[sn_code := sn_owner]> sn_config) w, g)
  | _, _ => (Raised, w, g)                 (* None has no strip *)
  end.

Definition add_sn_owner_route : handler := has_role "super" add_sn_owner.

Definition delete_sn_owner : handler := λ w req g,
  let sn_code_to_delete := form req !! "sn_code_to_delete" in
  let sn_config := load_sn_config w in
  match sn_code_to_delete with
  | Some sn_code =>
      if bool_decide (is_Some (sn_config !! sn_code))
      then (SnReleased sn_code, save_sn_config (delete sn_code sn_config) w, g)
      else (SnNotFound sn_code_to_delete, w, g)
  | None => (SnNotFound sn_code_to_delete, w, g)
  end.

Definition delete_sn_owner_route : handler := has_role "super" delete_sn_owner.

(** ** The client API *)

(** [str.lower] on one character: A..Z and the capital letters of the
    upper half (all of 192..222 but the multiplication sign) move up by
    32. *)
Definition lower_char (c : ascii) : ascii :=
  let n := Text.code c in
  if ((65 <=? n) && (n <=? 90))
     || ((192 <=? n) && (n <=? 222) && negb (n =? 215))
  then ascii_of_N (Z.to_N (n + 32))
  else c.

(** [s.lower()] *)
Fixpoint lower (s : string) : string :=
  match s with
  | EmptyString => EmptyString
  | String c s' => String (lower_char c) (lower s')
  end.

(** [s.replace(" ", "_")] *)
Fixpoint replace_spaces (s : string) : string :=
  match s with
  | EmptyString => EmptyString
  | String c s' =>
      String (if bool_decide (c = " "%char) then "_"%char else c) (replace_spaces s')
  end.

(** [a.get(key, d)] for the key of the field [field]: the key's value,
    [None] (Python's None) for a key that holds null, [d] for a lacking
    key.  [d] itself may be None. *)
Definition get_with {A} (key : string) (field : app_entry → option A)
    (a : app_entry) (d : option A) : option A :=
  match field a with
  | Some v => Some v
  | None => if bool_decide (key ∈ e_rest a) then None else d
  end.

Definition get_or {A} (key : string) (field : app_entry → option A)
    (a : app_entry) (d : A) : option A :=
  get_with key field a (Some d).

(** [size_bytes]: [int(app_data.get("size", 0) or 0)], and 0 in place of a
    [ValueError].  [int] is the interpreter's conversion of a text, [None]
    its [ValueError]; the functions are modelled for whatever it accepts. *)
Definition size_bytes (int : string → option Z) (app_data : app_entry) : Z :=
  match e_size app_data with
  | Some s => if Text.truthy s then default 0 (int s) else 0
  | None => 0
  end.

(** Whether [size_bytes / (1024 * 1024)] raises [OverflowError]: the
    quotient, rounded to the nearest float, is beyond the largest one. *)
Definition division_overflows (size_bytes : Z) : bool :=
  2 ^ 1044 - 2 ^ 990 <=? Z.abs size_bytes.

(** [app_package_name]: the entry's packageName or, when that is lacking,
    null or empty, a name made of appName, name or a default; [None] when
    the name read is None, which has no [lower]. *)
Definition package_name (app_data : app_entry) : option string :=
  if truthy_opt (e_packageName app_data) then e_packageName app_data
  else
    (λ base_name, "com.default." +:+ replace_spaces (lower base_name))
      <$> get_with "appName" e_appName app_data
            (get_or "name" e_name app_data "unknown_app").

(** Whether [int(app_data.get("updateTime", int(time.time() * 1000)))]
    returns: not for null, and for a text only if [int] accepts it. *)
Definition upload_time_converts (int : string → option Z) (app_data : app_entry)
  : bool :=
  match e_updateTime app_data with
  | Some t => present (int t)
  | None => negb (bool_decide ("updateTime" ∈ e_rest app_data))
  end.

(** The fields of [map_app_fields]'s result that are made of the entry;
    the name, the version, the upload time and the formatted size are left
    out.  [None] in a field is null. *)
Record mapped_app := {
  m_id : Z;
  m_summary : option string;
  m_icon : option string;
  m_apkUrl : option string;
  m_apkName : string;
  m_apkSize : Z;
  m_apkMd5 : option string
}.

(** [None] is an uncaught exception.  The default of
    [app_data.get("id", random.randint(100000, 999999))] is evaluated on
    every call that gets as far as the dictionary. *)
Definition map_app_fields (int : string → option Z) (app_data : app_entry) (g : rng)
  : option mapped_app * rng :=
  let size_bytes := size_bytes int app_data in
  if division_overflows size_bytes then (None, g)      (* OverflowError *)
  else
  match package_name app_data with
  | None => (None, g)                                  (* None has no lower *)
  | Some app_package_name =>
  let drawn := randint 100000 999999 g in
  match get_or "id" e_id app_data drawn.1 with
  | None => (None, drawn.2)                            (* int(None): TypeError *)
  | Some id =>
  if negb (upload_time_converts int app_data) then (None, drawn.2)
  else
    (Some {| m_id := id;
             m_summary := get_or "desc" e_desc app_data "";
             m_icon := get_or "iconUrl" e_iconUrl app_data DEFAULT_ICON_URL;
             m_apkUrl := get_or "downloadUrl" e_downloadUrl app_data "";
             m_apkName := app_package_name;
             m_apkSize := size_bytes;
             m_apkMd5 := get_or "md5" e_md5 app_data "" |}, drawn.2)
  end end.

(** One element of the "data" list of [api_response_search]. *)
Record search_item := {
  s_apkName : string;
  s_icon : option string;
  s_id : Z;
  s_size : Z;
  s_summary : option string;
  s_downloadUrl : option string
}.

Definition simplified (mapped : mapped_app) : search_item :=
  {| s_apkName := m_apkName mapped; s_icon := m_icon mapped; s_id := m_id mapped;
     s_size := m_apkSize mapped; s_summary := m_summary mapped;
     s_downloadUrl := m_apkUrl mapped |}.

(** The "data" of the answer, or [None] for an uncaught exception of
    [map_app_fields]. *)
Fixpoint api_response_search (int : string → option Z) (data_list : list app_entry)
    (g : rng) : option (list search_item) * rng :=
  match data_list with
  | [] => (Some [], g)
  | app_data :: rest =>
      match map_app_fields int app_data g with
      | (None, g1) => (None, g1)
      | (Some mapped, g1) =>
          match api_response_search int rest g1 with
          | (None, g2) => (None, g2)
          | (Some simplified_data, g2) =>
              (Some (simplified mapped :: simplified_data), g2)
          end
      end
  end.

Definition system_apps_list (int : string → option Z) (w : stores) (g : rng)
  : option (list search_item) * rng :=
  api_response_search int (load_apps w) g.

Definition auto_update_list (int : string → option Z) (w : stores) (g : rng)
  : option (list search_item) * rng :=
  api_response_search int (load_apps w) g.

(** The "data" of the apk route. *)
Record apk_data := {
  a_id : Z;
  a_apkName : string;
  a_url : option string;
  a_size : Z;
  a_md5 : option string
}.

(** The answers of the apk route: its error number and message, its data,
    or an uncaught exception of [map_app_fields]. *)
Inductive apk_response :=
  | ApkError (errNo : Z) (errMsg : string)
  | ApkSucc (data : apk_data)
  | ApkRaised.

(** [str(app_id)] for [request.args.get("appId")] *)
Definition str_opt (o : option string) : string := default "None" o.

Definition apk_details (int : string → option Z) (w : stores) (req : request)
    (g : rng) : apk_response * rng :=
  let app_id := args req !! "appId" in
  let all_apps := load_apps w in
  let found_app := next_match (λ app_data, eqb_str (str_id app_data) (str_opt app_id)) all_apps in
  let found_app :=
    if negb (from_option dict_truthy false found_app) then
      match all_apps with
      | first :: _ => Some first
      | [] => None
      end
    else found_app in
  match found_app with
  | None => (ApkError 1000 "App list is empty", g)
  | Some found_app =>
      match map_app_fields int found_app g with
      | (None, g1) => (ApkRaised, g1)
      | (Some mapped_app, g1) =>
          (ApkSucc {| a_id := m_id mapped_app; a_apkName := m_apkName mapped_app;
                      a_url := m_apkUrl mapped_app; a_size := m_apkSize mapped_app;
                      a_md5 := m_apkMd5 mapped_app |}, g1)
      end
  end.

(** * Definitions used by the statements *)

(** ** Sample data *)

Definition sample_app (id : Z) (owner : string) (allowedSn : option (list string))
  : app_entry :=
  {| e_appId := Some "mt-001"; e_id := Some id; e_name := Some "MT";
     e_appName := Some "MT";
     e_packageName := Some "com.mt.manager";
     e_downloadUrl := Some "http://154.9.228.196:8080/static/mt.apk";
     e_iconUrl := Some DEFAULT_ICON_URL; e_size := Some "259634232";
     e_md5 := Some "c783de55addbf3cf3606f825fd784aee"; e_desc := Some "";
     e_updateTime := Some "1762250000000";
     e_owner := Some owner; e_allowedSn := allowedSn; e_rest := fixed_keys |}.

Definition sample_users : gmap string user :=
  <["super_admin" := {| password := "123456"; role := Some "super";
                        max_apps := None; owns_apps := None |}]>
  (<["manager_user" := {| password := "app_manager_123"; role := Some "manager";
                          max_apps := Some 10; owns_apps := Some 0 |}]>
  (<["second_manager" := {| password := "pw2"; role := Some "manager";
                            max_apps := Some 2; owns_apps := Some 2 |}]> ∅)).

Definition sample_sn_owners : gmap string string := <["114514" := "manager_user"]> ∅.

Definition sample_stores : stores :=
  {| apps := [sample_app 602750 "manager_user" (Some [])];
     users := sample_users;
     sn_owners := sample_sn_owners |}.

(** A reading of the clock. *)
Definition sample_clock : Z := 1762250000000.

(** A request with basic-auth credentials and form fields. *)
Definition post (username pw : string) (fields : list (string * string)) : request :=
  {| authorization := Some (username, pw); form := list_to_map fields; args := ∅;
     clock := sample_clock |}.

(** A request without credentials, with its query arguments. *)
Definition query (fields : list (string * string)) : request :=
  {| authorization := None; form := ∅; args := list_to_map fields;
     clock := sample_clock |}.

(** The form of the add page after an upload, with the given id and SN
    fields. *)
Definition add_form (id allowedSn : string) : list (string * string) :=
  [("downloadUrl_hidden", "https://zybapk.idkwhatismyname.space/a.apk");
   ("size_hidden", "1024"); ("md5_hidden", "0cc175b9c0f1b6a831c399e269772661");
   ("appName", "A"); ("packageName", "com.a"); ("id", id);
   ("allowedSn", allowedSn)].

(** The entry [add_app] builds from [add_form], for a given id, owner and
    SN list. *)
Definition added_entry (id : Z) (owner : string) (allowedSn : list string)
  : app_entry :=
  {| e_appId := Some ("com.a-" +:+ Text.str id); e_id := Some id;
     e_name := None;
     e_appName := Some "A"; e_packageName := Some "com.a";
     e_downloadUrl := Some "https://zybapk.idkwhatismyname.space/a.apk";
     e_iconUrl := Some DEFAULT_ICON_URL; e_size := Some "1024";
     e_md5 := Some "0cc175b9c0f1b6a831c399e269772661"; e_desc := Some "";
     e_updateTime := Some (Text.str sample_clock);
     e_owner := Some owner; e_allowedSn := Some allowedSn;
     e_rest := fixed_keys |}.

(** A generator whose every draw comes out as 602750. *)
Definition stuck_rng : rng := λ _, 502750.

(** Two managers with room for more apps; the first owns the one entry of
    the catalog. *)
Definition two_managers_stores : stores :=
  {| apps := [sample_app 602750 "manager_user" (Some [])];
     users :=
       <["manager_user" := {| password := "app_manager_123"; role := Some "manager";
                              max_apps := Some 10; owns_apps := Some 1 |}]>
       (<["second_manager" := {| password := "pw2"; role := Some "manager";
                                 max_apps := Some 2; owns_apps := Some 0 |}]> ∅);
     sn_owners := ∅ |}.

(** The object with the given name and null keys, and no other key. *)
Definition named_entry (name : option string) (null_keys : list string) : app_entry :=
  {| e_appId := None; e_id := None; e_name := name; e_appName := None;
     e_packageName := None; e_downloadUrl := None; e_iconUrl := None;
     e_size := None; e_md5 := None; e_desc := None; e_updateTime := None;
     e_owner := None; e_allowedSn := None; e_rest := null_keys |}.

(** An entry with another size text. *)
Definition with_size (size : string) (a : app_entry) : app_entry :=
  {| e_appId := e_appId a; e_id := e_id a; e_name := e_name a;
     e_appName := e_appName a;
     e_packageName := e_packageName a; e_downloadUrl := e_downloadUrl a;
     e_iconUrl := e_iconUrl a; e_size := Some size; e_md5 := e_md5 a;
     e_desc := e_desc a; e_updateTime := e_updateTime a;
     e_owner := e_owner a; e_allowedSn := e_allowedSn a;
     e_rest := e_rest a |}.

(** A size of 401 digits: 1 and 400 zeros. *)
Definition huge_size : string := Text.str (10 ^ 400).

(** A conversion for the examples: decimal digits only. *)
Definition digits_int (s : string) : option Z :=
  if Text.isdigit s then Text.int s else None.

(** ** The visibility filter *)

(** The rule of the specification, for a client SN [sn]: public entries,
    and for a non-empty [sn] the entries that list it. *)
Definition spec_visible (sn : string) (e : app_entry) : Prop :=
  if decide (sn = "") then e_allowedSn e = Some []
  else e_allowedSn e = Some []
       ∨ match e_allowedSn e with
         | Some l => l ≠ [] ∧ sn ∈ l
         | None => False
         end.

Global Instance spec_visible_dec sn e : Decision (spec_visible sn e).
Proof.
  unfold spec_visible. destruct (decide (sn = "")); [apply _|].
  destruct (e_allowedSn e); apply _.
Defined.

(** The test the code applies to one entry, for the stripped SN. *)
Definition visible (sn : string) (e : app_entry) : bool :=
  if Text.truthy sn
  then is_public (e_allowedSn e) || is_whitelisted sn (e_allowedSn e)
  else is_public (e_allowedSn e).

(** ** Principals *)

(** The account a request is authenticated as: known user, right password. *)
Definition authenticated (w : stores) (req : request) : option (string * user) :=
  match authorization req with
  | Some (username, pw) =>
      match users w !! username with
      | Some u => if eqb_str (password u) pw then Some (username, u) else None
      | None => None
      end
  | None => None
  end.

(** The roles [has_role("manager")] lets through. *)
Definition may_manage (u : user) : bool :=
  bool_decide (role u = Some "super") || bool_decide (role u = Some "manager").

(** ** Creation checks *)

(** The three hidden fields of the upload are all filled in. *)
Definition file_info_complete (req : request) : bool :=
  truthy_opt (form req !! "downloadUrl_hidden")
  && truthy_opt (form req !! "size_hidden")
  && truthy_opt (form req !! "md5_hidden").

(** The quota rule in the words of the specification: super, or no
    maxApps, or ownsApps below maxApps. *)
Definition spec_quota_ok (u : user) : Prop :=
  role u = Some "super"
  ∨ match max_apps u with
    | None => True
    | Some m => default 0 (owns_apps u) < m
    end.

(** The quota rule of the code: a lacking max_apps counts as 9999. *)
Definition quota_ok (u : user) : Prop :=
  role u = Some "super" ∨ default 0 (owns_apps u) < default 9999 (max_apps u).

(** The limit column of an account's row on the super admin's page: the
    template prints max_apps for a manager, the word for "unlimited" when
    the account has none, and N/A for any other role. *)
Inductive limit_cell :=
  | NotApplicable
  | Unlimited
  | Limit (max_apps : Z).

Definition max_apps_cell (u : user) : limit_cell :=
  if bool_decide (role u = Some "manager")
  then match max_apps u with
       | Some m => Limit m
       | None => Unlimited
       end
  else NotApplicable.

(** The SN list a request asks for. *)
Definition requested_sn_list (req : request) : list string :=
  let allowed_sn_raw := Text.strip (default "" (form req !! "allowedSn")) in
  if Text.truthy allowed_sn_raw then parse_sn_list allowed_sn_raw else [].

(** [sn] is registered to [o], an account name other than [name]. *)
Definition owned_by_other (sn_config : gmap string string) (name sn o : string) : Prop :=
  sn_config !! sn = Some o ∧ o ≠ "" ∧ o ≠ name.

(** The outcomes that report a completed mutation. *)
Definition succeeded (o : outcome) : bool :=
  match o with
  | Added _ | Deleted _ | SnAssigned _ _ | SnReleased _ => true
  | _ => false
  end.

(** Every registered owner is a name, not the empty text. *)
Definition named_owners (sn_config : gmap string string) : Prop :=
  ∀ sn o, sn_config !! sn = Some o → o ≠ "".

(** ** Rendering *)

(** Whether [map_app_fields] returns for an entry: the size does not
    overflow the division, a package name can be made, the id is not null
    and the updateTime converts. *)
Definition renders (int : string → option Z) (e : app_entry) : bool :=
  negb (division_overflows (size_bytes int e))
  && present (package_name e)
  && present (get_or "id" e_id e 0)
  && upload_time_converts int e.

(** What [map_app_fields] returns for an entry that renders, [fallback]
    being the number drawn for an entry without id. *)
Definition mapped (int : string → option Z) (e : app_entry) (fallback : Z)
  : mapped_app :=
  {| m_id := default fallback (e_id e);
     m_summary := get_or "desc" e_desc e "";
     m_icon := get_or "iconUrl" e_iconUrl e DEFAULT_ICON_URL;
     m_apkUrl := get_or "downloadUrl" e_downloadUrl e "";
     m_apkName := default "" (package_name e);
     m_apkSize := size_bytes int e;
     m_apkMd5 := get_or "md5" e_md5 e "" |}.

(** The data of the apk route for an entry that renders. *)
Definition details (int : string → option Z) (e : app_entry) (fallback : Z)
  : apk_data :=
  {| a_id := default fallback (e_id e);
     a_apkName := default "" (package_name e);
     a_url := get_or "downloadUrl" e_downloadUrl e "";
     a_size := size_bytes int e;
     a_md5 := get_or "md5" e_md5 e "" |}.

(** ** Sequences of deletions *)

Fixpoint run_deletes (reqs : list request) (w : stores) (g : rng) : stores :=
  match reqs with
  | [] => w
  | req :: rest =>
      let '(_, w1, g1) := delete_app_route w req g in run_deletes rest w1 g1
  end.

(** * Further routes *)

(** ** Keyword search *)

Fixpoint starts_with (needle hay : string) : bool :=
  match needle, hay with
  | EmptyString, _ => true
  | String a needle', String b hay' => bool_decide (a = b) && starts_with needle' hay'
  | String _ _, EmptyString => false
  end.

(** [needle in hay] *)
Fixpoint contains (needle hay : string) : bool :=
  starts_with needle hay
  || match hay with
     | EmptyString => false
     | String _ hay' => contains needle hay'
     end.

(** The condition of the comprehension for one entry; [None] is the
    exception raised on a name that is null, which has no [lower].  The
    packageName is read only when the appName does not match. *)
Definition keyword_match (search_lower : string) (app_data : app_entry)
  : option bool :=
  match get_or "appName" e_appName app_data "" with
  | None => None
  | Some app_name =>
      if contains search_lower (lower app_name) then Some true
      else contains search_lower ∘ lower
             <$> get_or "packageName" e_packageName app_data ""
  end.

(** The comprehension: it raises as soon as its condition does. *)
Fixpoint filter_by_keyword (search_lower : string) (filtered_apps : list app_entry)
  : option (list app_entry) :=
  match filtered_apps with
  | [] => Some []
  | app_data :: rest =>
      match keyword_match search_lower app_data with
      | None => None
      | Some matches =>
          (λ results, if matches then app_data :: results else results)
            <$> filter_by_keyword search_lower rest
      end
  end.

(** The [results] of [list_and_search_apps], the entries it hands to
    [api_response_search]; [None] is an uncaught exception. *)
Definition search_results (w : stores) (req : request) : option (list app_entry) :=
  let client_sn := Text.strip (default "" (args req !! "sn")) in
  let all_apps := load_apps w in
  let filtered_apps := filter_apps_by_sn all_apps client_sn in
  let keyword := Text.strip (default "" (args req !! "keyword")) in
  if negb (Text.truthy keyword) then Some filtered_apps
  else
    let search_lower := lower keyword in
    filter_by_keyword search_lower filtered_apps.

Definition list_and_search_apps (int : string → option Z) (w : stores)
    (req : request) (g : rng) : option (list search_item) * rng :=
  match search_results w req with
  | None => (None, g)
  | Some results => api_response_search int results g
  end.

Definition recommend_app_list (int : string → option Z) (g : rng)
  : option (list search_item) * rng :=
  api_response_search int [] g.

(** ** The decorator for routes with other answers *)

(** [has_role] with the two refusals as arguments, for the handlers whose
    answers are not an [outcome]. *)
Definition has_role_any {R : Type} (login_required access_denied : R)
    (required_role : string) (f : stores → request → rng → R * stores * rng)
  : stores → request → rng → R * stores * rng :=
  λ w req g,
    let config := load_config w in
    match authorization req with
    | None => (login_required, w, g)
    | Some (username, pw) =>
        match config !! username with
        | None => (login_required, w, g)
        | Some u =>
            if negb (eqb_str (password u) pw) then (login_required, w, g)
            else
              let user_role := default "guest" (role u) in
              if eqb_str user_role "super"
                 && (eqb_str required_role "manager" || eqb_str required_role "super")
              then f w req g
              else if negb (eqb_str user_role required_role) then (access_denied, w, g)
              else f w req g
        end
    end.

(** ** The manager's page *)

(** The SN column of one row: the entry's codes, or one of the two labels
    the page puts in their place. *)
Inductive sn_column :=
  | PublicLabel
  | HiddenLabel
  | SnCodes (codes : list string).

(** One element of [display_list]: the copied entry with its three
    rewritten keys.  [None] in [d_owner] is null. *)
Record display_app := {
  d_app : app_entry;
  d_id : string;
  d_owner : option string;
  d_allowedSn : sn_column
}.

(** The answers of the page route; of the values given to the template
    the upload fields echoed from the query are left out. *)
Inductive page :=
  | PageLoginRequired
  | PageAccessDenied
  | AdminPage (message : option string) (apps_list : list display_app).

(** The body of the loop of [admin_page_get].  [unknown_owner] is the
    text the source gives an entry without owner (two characters that are
    not among the code points of [Text]); like any text it may be a user's
    name. *)
Definition display_row (unknown_owner : string)
    (user_role logged_in_user : option string) (app : app_entry) : display_app :=
  let app_owner := get_or "owner" e_owner app unknown_owner in
  let can_see_sn :=
    bool_decide (user_role = Some "super")
    || bool_decide (app_owner = logged_in_user) in
  let shown :=
    match e_allowedSn app with
    | Some (sn :: l) => SnCodes (sn :: l)
    | _ => PublicLabel
    end in
  {| d_app := app;
     d_id := str_id app;
     d_owner := app_owner;
     d_allowedSn := if negb can_see_sn then HiddenLabel else shown |}.

Definition admin_page_get (unknown_owner : string) (w : stores) (req : request)
    (g : rng) : page * stores * rng :=
  let message := args req !! "message" in
  let apps_list := load_apps w in
  let logged_in_user := get_logged_in_user req in
  let config := load_config w in
  let user_role := (logged_in_user ≫= (config !!.)) ≫= role in
  (AdminPage message
     (display_row unknown_owner user_role logged_in_user <$> apps_list), w, g).

Definition admin_page_get_route (unknown_owner : string)
  : stores → request → rng → page * stores * rng :=
  has_role_any PageLoginRequired PageAccessDenied "manager"
    (admin_page_get unknown_owner).

(** ** Accounts (super only) *)

Inductive account_outcome :=
  | AccountLoginRequired
  | AccountAccessDenied
  | AccountRaised
  | NoSuchManager
  | LimitBelowUsage (max_apps owns : Z)
  | InvalidLimit
  | UserUpdated (username : string)
  | NameTaken (new_username : string)
  | MissingCredentials
  | ManagerAdded (new_username : string) (max_apps : Z).

Definition account_handler := stores → request → rng → account_outcome * stores * rng.

Definition set_password (pw : string) (u : user) : user :=
  {| password := pw; role := role u; max_apps := max_apps u;
     owns_apps := owns_apps u |}.

Definition set_max_apps (n : Z) (u : user) : user :=
  {| password := password u; role := role u; max_apps := Some n;
     owns_apps := owns_apps u |}.

(** [int] is the interpreter's conversion of a text, [None] its
    [ValueError]; the handlers are modelled for whatever it accepts. *)
Definition update_user_config (int : string → option Z) (username : string)
  : account_handler := λ w req g,
  let config := load_config w in
  let new_password := form req !! "new_password" in
  let new_max_apps := form req !! "new_max_apps" in
  match config !! username with
  | None => (NoSuchManager, w, g)
  | Some u =>
  if negb (bool_decide (role u = Some "manager")) then (NoSuchManager, w, g)
  else
  let u := if truthy_opt new_password then set_password (default "" new_password) u
           else u in
  match new_max_apps with
  | None => (AccountRaised, w, g)          (* int(None): TypeError *)
  | Some text =>
  match int text with
  | None => (InvalidLimit, w, g)
  | Some max_apps =>
      if max_apps <? default 0 (owns_apps u)
      then (LimitBelowUsage max_apps (default 0 (owns_apps u)), w, g)
      else if max_apps <? 0 then (InvalidLimit, w, g)
      else (UserUpdated username,
            save_config (<[username := set_max_apps max_apps u]> config) w, g)
  end end end.

Definition update_user_config_route (int : string → option Z) (username : string)
  : account_handler :=
  has_role_any AccountLoginRequired AccountAccessDenied "super"
    (update_user_config int username).

Definition add_new_manager (int : string → option Z) : account_handler := λ w req g,
  let config := load_config w in
  let new_username := form req !! "new_username" in
  let new_password := form req !! "new_password" in
  if bool_decide (is_Some (new_username ≫= (config !!.)))
  then (NameTaken (default "" new_username), w, g)
  else if negb (truthy_opt new_username) || negb (truthy_opt new_password)
  then (MissingCredentials, w, g)
  else
  (* a form without the field gives the number 10 itself *)
  match from_option int (Some 10) (form req !! "new_max_apps") with
  | None => (InvalidLimit, w, g)
  | Some max_apps =>
      if max_apps <? 0 then (InvalidLimit, w, g)
      else
        let name := default "" new_username in
        (ManagerAdded name max_apps,
         save_config
           (<[name := {| password := default "" new_password;
                         role := Some "manager";
                         max_apps := Some max_apps;
                         owns_apps := Some 0 |}]> config) w, g)
  end.

Definition add_new_manager_route (int : string → option Z) : account_handler :=
  has_role_any AccountLoginRequired AccountAccessDenied "super" (add_new_manager int).

(** * Definitions used by the further statements *)

(** Every registered SN belongs to a manager account of config.json. *)
Definition owners_are_managers (w : stores) : Prop :=
  ∀ sn o, sn_owners w !! sn = Some o →
          ∃ u, users w !! o = Some u ∧ role u = Some "manager".

(** An account's counter is within its limit, and the limit is not
    negative (a lacking counter read as 0, a lacking limit as 9999). *)
Definition within_quota (u : user) : Prop :=
  0 ≤ default 9999 (max_apps u)
  ∧ default 0 (owns_apps u) ≤ default 9999 (max_apps u).

Definition all_within_quota (w : stores) : Prop :=
  ∀ name u, users w !! name = Some u → within_quota u.

(** One request to a route that writes to the stores. *)
Inductive action :=
  | AddApp
  | DeleteApp
  | AddSnOwner
  | DeleteSnOwner
  | UpdateUser (username : string)
  | AddManager.

Definition perform (int : string → option Z) (a : action) (w : stores)
    (req : request) (g : rng) : stores * rng :=
  match a with
  | AddApp => let '(_, w', g') := add_app_route w req g in (w', g')
  | DeleteApp => let '(_, w', g') := delete_app_route w req g in (w', g')
  | AddSnOwner => let '(_, w', g') := add_sn_owner_route w req g in (w', g')
  | DeleteSnOwner => let '(_, w', g') := delete_sn_owner_route w req g in (w', g')
  | UpdateUser username =>
      let '(_, w', g') := update_user_config_route int username w req g in (w', g')
  | AddManager => let '(_, w', g') := add_new_manager_route int w req g in (w', g')
  end.

Fixpoint perform_all (int : string → option Z) (todo : list (action * request))
    (w : stores) (g : rng) : stores :=
  match todo with
  | [] => w
  | (a, req) :: rest =>
      let '(w', g') := perform int a w req g in perform_all int rest w' g'
  end.

(** No character of the text is [c]. *)
Definition free_of (c : ascii) (s : string) : bool :=
  Text.all_chars (λ a, negb (bool_decide (a = c))) s.

(** Whether the filter shows, to a client SN, an entry restricted to the
    SN list [sn_list] (the empty list being no restriction). *)
Definition shown_to (client_sn : string) (sn_list : list string) : Prop :=
  sn_list = [] ∨ Text.strip client_sn ∈ sn_list.

(** What an account is apart from its counter. *)
Definition account_settings (u : user) : string * option string * option Z :=
  (password u, role u, max_apps u).

(** The answers of the account routes that report a saved change. *)
Definition account_succeeded (o : account_outcome) : bool :=
  match o with
  | UserUpdated _ | ManagerAdded _ _ => true
  | _ => false
  end.

(** From [w] to [w'] every account stays, with its role. *)
Definition keeps_roles (w w' : stores) : Prop :=
  ∀ name u, users w !! name = Some u →
            ∃ u', users w' !! name = Some u' ∧ role u' = role u.

(** Every SN binding of [w'] is one of [w] or binds a non-empty name of a
    manager account of [w]. *)
Definition registers_managers (w w' : stores) : Prop :=
  ∀ sn o, sn_owners w' !! sn = Some o →
          sn_owners w !! sn = Some o
          ∨ (o ≠ "" ∧ ∃ u, users w !! o = Some u ∧ role u = Some "manager").

Definition step_ok (w w' : stores) : Prop :=
  keeps_roles w w' ∧ registers_managers w w'
  ∧ (all_within_quota w → all_within_quota w').

(** The add form with the size the upload reported. *)
Definition sized_add_form (size id : string) : list (string * string) :=
  [("downloadUrl_hidden", "https://zybapk.idkwhatismyname.space/a.apk");
   ("size_hidden", size); ("md5_hidden", "0cc175b9c0f1b6a831c399e269772661");
   ("appName", "A"); ("packageName", "com.a"); ("id", id);
   ("allowedSn", "")].

(** * Properties *)

(** ** Text *)

Example strip_ex : Text.strip "  ab c  " = "ab c".
Proof. reflexivity. Qed.

Example strip_nbsp_ex : Text.strip (String (ascii_of_nat 160) "x") = "x".
Proof. reflexivity. Qed.

Example split_ex : Text.split "," "a, b,,c" = ["a"; " b"; ""; "c"].
Proof. reflexivity. Qed.

Example split_empty_ex : Text.split "," "" = [""].
Proof. reflexivity. Qed.

Example int_ex : Text.int "00712" = Some 712.
Proof. reflexivity. Qed.

Example int_superscript_ex :
  Text.isdigit (String (ascii_of_nat 178) "") = true
  ∧ Text.int (String (ascii_of_nat 178) "") = None.
Proof. split; reflexivity. Qed.

Example str_ex : Text.str 602750 = "602750" ∧ Text.str 0 = "0" ∧ Text.str (-5) = "-5".
Proof. repeat split; reflexivity. Qed.

(** ** The visibility filter *)

Lemma truthy_true s : Text.truthy s = true ↔ s ≠ "".
Proof. destruct s; simpl; split; intros; congruence. Qed.

Lemma truthy_false s : Text.truthy s = false ↔ s = "".
Proof. destruct s; simpl; split; intros; congruence. Qed.

Lemma is_public_spec o : is_public o = true ↔ o = Some [].
Proof.
  destruct o as [[|x l]|]; simpl; split; intros H; congruence.
Qed.

Lemma is_whitelisted_spec sn o :
  is_whitelisted sn o = true
  ↔ match o with Some l => l ≠ [] ∧ sn ∈ l | None => False end.
Proof.
  destruct o as [[|x l]|]; simpl.
  - split; [discriminate|]. by intros [Hne _].
  - rewrite bool_decide_eq_true. split; [done|]. by intros [_ Hin].
  - split; [discriminate|done].
Qed.

Lemma visible_spec sn e : visible sn e = true ↔ spec_visible sn e.
Proof.
  unfold visible, spec_visible.
  destruct (Text.truthy sn) eqn:Hsn.
  - apply truthy_true in Hsn. rewrite decide_False by done.
    rewrite orb_true_iff, is_public_spec, is_whitelisted_spec. tauto.
  - apply truthy_false in Hsn. rewrite decide_True by done.
    apply is_public_spec.
Qed.

Lemma filter_loop_app (p : app_entry → bool)
    (f : list app_entry → app_entry → list app_entry) (l acc : list app_entry) :
  (∀ filtered_list app,
     f filtered_list app = if p app then filtered_list ++ [app] else filtered_list) →
  fold_left f l acc = acc ++ List.filter p l.
Proof.
  intros Hf. revert acc. induction l as [|a l IH]; intros acc; simpl.
  - by rewrite app_nil_r.
  - rewrite IH, Hf. destruct (p a); [|done]. by rewrite <- app_assoc.
Qed.

(** The loop and the comprehension both keep the entries that pass
    [visible], in catalog order. *)
Lemma filter_apps_by_sn_filter all_apps client_sn :
  filter_apps_by_sn all_apps client_sn
  = List.filter (visible (Text.strip client_sn)) all_apps.
Proof.
  unfold filter_apps_by_sn, visible.
  destruct (Text.truthy (Text.strip client_sn)); [|done].
  rewrite (filter_loop_app
             (λ e, is_public (e_allowedSn e)
                   || is_whitelisted (Text.strip client_sn) (e_allowedSn e))); [done|].
  intros acc a. simpl. by destruct (is_public _), (is_whitelisted _ _).
Qed.

Lemma list_filter_stdpp (p : app_entry → bool) (P : app_entry → Prop)
    `{!∀ e, Decision (P e)} (l : list app_entry) :
  (∀ e, p e = true ↔ P e) → List.filter p l = filter P l.
Proof.
  intros Hp. induction l as [|a l IH]; [done|]. simpl.
  rewrite filter_cons, IH. destruct (p a) eqn:Ha.
  - apply Hp in Ha. by rewrite decide_True.
  - rewrite decide_False; [done|]. rewrite <- Hp. congruence.
Qed.

Lemma list_filter_sublist (p : app_entry → bool) (l : list app_entry) :
  List.filter p l `sublist_of` l.
Proof.
  induction l as [|a l IH]; simpl; [constructor|].
  destruct (p a); by constructor.
Qed.

(** C2 as stated fails on an SN with surrounding white space: the entry
    restricted to S1 is shown to the client SN " S1", which it does not
    list. *)
Lemma filter_unstripped_sn_counterexample :
  let e := sample_app 602750 "manager_user" (Some ["S1"]) in
  e ∈ filter_apps_by_sn [e] " S1" ∧ ¬ spec_visible " S1" e.
Proof.
  simpl. split.
  - assert (filter_apps_by_sn [sample_app 602750 "manager_user" (Some ["S1"])] " S1"
            = [sample_app 602750 "manager_user" (Some ["S1"])]) as -> by reflexivity.
    apply list_elem_of_here.
  - apply (bool_decide_eq_false_1 _). reflexivity.
Qed.

(** C2, amended: with the client SN stripped of surrounding white space,
    the filter keeps exactly the entries the rule of the specification
    admits, and never an entry that lacks allowedSn. *)
Theorem filter_apps_by_sn_visibility (all_apps : list app_entry) (client_sn : string) :
  filter_apps_by_sn all_apps client_sn
  = filter (spec_visible (Text.strip client_sn)) all_apps
  ∧ Forall (λ e, present (e_allowedSn e) = true) (filter_apps_by_sn all_apps client_sn).
Proof.
  rewrite filter_apps_by_sn_filter. split.
  - apply list_filter_stdpp, visible_spec.
  - apply Forall_forall. intros e [_ He]%list_elem_of_In%filter_In.
    destruct (e_allowedSn e) eqn:Hsn; [done|].
    unfold visible in He. rewrite Hsn in He. simpl in He. by destruct (Text.truthy _).
Qed.

(** C10: the result is a subsequence of the catalog, in catalog order, and
    depends on nothing but the two arguments. *)
Theorem filter_apps_by_sn_stable (all_apps : list app_entry) (client_sn : string) :
  filter_apps_by_sn all_apps client_sn `sublist_of` all_apps
  ∧ ∀ all_apps' client_sn',
      all_apps' = all_apps → client_sn' = client_sn →
      filter_apps_by_sn all_apps' client_sn' = filter_apps_by_sn all_apps client_sn.
Proof.
  split.
  - rewrite filter_apps_by_sn_filter. apply list_filter_sublist.
  - by intros ?? -> ->.
Qed.

Lemma filter_apps_by_sn_stable_witness :
  let catalog := [sample_app 1 "manager_user" (Some ["S1"]);
                  sample_app 2 "manager_user" None;
                  sample_app 3 "manager_user" (Some [])] in
  filter_apps_by_sn catalog "S1" `sublist_of` catalog
  ∧ filter_apps_by_sn catalog "S1" = filter_apps_by_sn catalog "S1".
Proof.
  intros catalog. split.
  - apply (proj1 (filter_apps_by_sn_stable catalog "S1")).
  - apply (proj2 (filter_apps_by_sn_stable catalog "S1") catalog "S1");
      reflexivity.
Defined.

Example filter_whitelist_rule :
  let e := sample_app 1 "manager_user" (Some ["S1"]) in
  filter_apps_by_sn [e] "S1" = [e]
  ∧ filter_apps_by_sn [e] "S2" = []
  ∧ filter_apps_by_sn [e] "" = [].
Proof. repeat split; reflexivity. Qed.

Example filter_unset_field :
  let e := sample_app 1 "manager_user" None in
  filter_apps_by_sn [e] "S1" = [] ∧ filter_apps_by_sn [e] "" = [].
Proof. split; reflexivity. Qed.

(** ** Authentication *)

Lemma has_role_manager (f : handler) w req g :
  has_role "manager" f w req g
  = match authenticated w req with
    | None => (LoginRequired, w, g)
    | Some (_, u) => if may_manage u then f w req g else (AccessDenied, w, g)
    end.
Proof.
  unfold has_role, authenticated, load_config, may_manage.
  destruct (authorization req) as [[username pw]|]; [|done].
  destruct (users w !! username) as [u|]; [|done].
  destruct (eqb_str (password u) pw); simpl; [|done].
  unfold eqb_str.
  destruct (role u) as [r|]; simpl.
  - destruct (decide (r = "super")) as [->|Hs]; [done|].
    rewrite (bool_decide_eq_false_2 (r = "super")) by done. simpl.
    rewrite (bool_decide_eq_false_2 (Some r = Some "super")) by congruence. simpl.
    destruct (decide (r = "manager")) as [->|Hm]; [done|].
    rewrite (bool_decide_eq_false_2 (r = "manager")) by done.
    by rewrite (bool_decide_eq_false_2 (Some r = Some "manager")) by congruence.
  - done.
Qed.

Lemma authenticated_user w req name u :
  authenticated w req = Some (name, u) →
  get_logged_in_user req = Some name ∧ users w !! name = Some u.
Proof.
  unfold authenticated, get_logged_in_user.
  destruct (authorization req) as [[username pw]|]; [|done]. simpl.
  destruct (users w !! username) as [u'|] eqn:Hu; [|done].
  destruct (eqb_str (password u') pw); [|done].
  by intros [= -> ->].
Qed.

(** ** Failed mutations *)

Lemma add_app_failed w req g :
  succeeded (add_app w req g).1.1 = false → (add_app w req g).1.2 = w.
Proof.
  unfold add_app.
  repeat (case_match; simpl; try done).
Qed.

Lemma delete_app_failed w req g :
  succeeded (delete_app w req g).1.1 = false → (delete_app w req g).1.2 = w.
Proof.
  unfold delete_app.
  repeat (case_match; simpl; try done).
Qed.

Lemma has_role_failed (f : handler) w req g :
  (succeeded (f w req g).1.1 = false → (f w req g).1.2 = w) →
  succeeded (has_role "manager" f w req g).1.1 = false →
  (has_role "manager" f w req g).1.2 = w.
Proof.
  rewrite has_role_manager.
  destruct (authenticated w req) as [[name u]|]; [|done].
  by destruct (may_manage u).
Qed.

(** C7: an add or a delete that does not report success leaves apps.json,
    the users and the SN registry as they were. *)
Theorem failed_mutation_keeps_stores (w : stores) (req : request) (g : rng) :
  (succeeded (add_app_route w req g).1.1 = false → (add_app_route w req g).1.2 = w)
  ∧ (succeeded (delete_app_route w req g).1.1 = false →
     (delete_app_route w req g).1.2 = w).
Proof.
  split; apply has_role_failed; [apply add_app_failed | apply delete_app_failed].
Qed.

Lemma failed_mutation_keeps_stores_witness :
  (add_app_route sample_stores
     (post "manager_user" "app_manager_123" (add_form "602750" "")) stuck_rng).1.2
  = sample_stores
  ∧ (delete_app_route sample_stores
       (post "second_manager" "pw2" [("app_id_to_delete", "602750")]) stuck_rng).1.2
    = sample_stores.
Proof.
  split.
  - apply (proj1 (failed_mutation_keeps_stores sample_stores
                    (post "manager_user" "app_manager_123" (add_form "602750" ""))
                    stuck_rng)).
    vm_compute. reflexivity.
  - apply (proj2 (failed_mutation_keeps_stores sample_stores
                    (post "second_manager" "pw2" [("app_id_to_delete", "602750")])
                    stuck_rng)).
    vm_compute. reflexivity.
Defined.

Example add_duplicate_explicit_id :
  (add_app_route sample_stores
     (post "manager_user" "app_manager_123" (add_form "602750" "")) stuck_rng).1.1
  = DuplicateId 602750.
Proof. vm_compute. reflexivity. Qed.

Example delete_by_other_manager :
  (delete_app_route sample_stores
     (post "second_manager" "pw2" [("app_id_to_delete", "602750")]) stuck_rng).1.1
  = Forbidden.
Proof. vm_compute. reflexivity. Qed.

(** ** The quota check *)

(** The body of [add_app] for an authenticated user, up to the SN check. *)
Lemma add_app_quota_step w req g name u :
  get_logged_in_user req = Some name → users w !! name = Some u →
  file_info_complete req = true →
  add_app w req g
  = if bool_decide (role u = Some "manager")
       && (default 9999 (max_apps u) <=? default 0 (owns_apps u))
    then (QuotaExceeded (default 9999 (max_apps u)), w, g)
    else add_app w req g.
Proof.
  intros Hlog Hu Hfile. case_match eqn:Hq; [|done].
  unfold add_app. cbv zeta. unfold file_info_complete in Hfile.
  rewrite Hfile, Hlog. simpl. unfold load_config. rewrite Hu. simpl.
  unfold role_is. simpl. by rewrite Hq.
Qed.

Lemma add_app_not_quota w req g lim :
  (role_is "manager" (get_logged_in_user req ≫= (users w !!.))
   && (default 9999 ((get_logged_in_user req ≫= (users w !!.)) ≫= max_apps)
       <=? default 0 ((get_logged_in_user req ≫= (users w !!.)) ≫= owns_apps)))
  = false →
  (add_app w req g).1.1 ≠ QuotaExceeded lim.
Proof.
  intros Hq. unfold add_app. cbv zeta. unfold load_config. rewrite Hq.
  repeat (case_match; simpl; try done).
Qed.

(** C3, the defect: a manager account without max_apps, which the super
    admin's page shows as unlimited and the rule of the specification
    admits, is refused with QuotaExceeded 9999 once its counter is at
    9999; the stores stay as they are. *)
Theorem quota_refuses_unlimited_manager :
  let u := {| password := "pw"; role := Some "manager";
              max_apps := None; owns_apps := Some 9999 |} in
  let w := {| apps := []; users := <["big_manager" := u]> ∅; sn_owners := ∅ |} in
  let req := post "big_manager" "pw" (add_form "" "") in
  max_apps_cell u = Unlimited
  ∧ spec_quota_ok u
  ∧ add_app_route w req stuck_rng = (QuotaExceeded 9999, w, stuck_rng).
Proof.
  simpl. split; [reflexivity|]. split.
  - right. exact I.
  - vm_compute. reflexivity.
Qed.

(** X30: the quota check as the code makes it: for an authenticated manager
    or super user whose upload fields are complete, the request gets through
    exactly when the role is super or owns_apps (0 if lacking) is below
    max_apps (9999 if lacking); otherwise the answer is QuotaExceeded and
    the stores are untouched. *)
Lemma quota_check (w : stores) (req : request) (g : rng) (name : string) (u : user) :
  authenticated w req = Some (name, u) →
  may_manage u = true →
  file_info_complete req = true →
  (quota_ok u → ∀ lim, (add_app_route w req g).1.1 ≠ QuotaExceeded lim)
  ∧ (¬ quota_ok u →
     add_app_route w req g = (QuotaExceeded (default 9999 (max_apps u)), w, g)).
Proof.
  intros Hauth Hmay Hfile.
  destruct (authenticated_user _ _ _ _ Hauth) as [Hlog Hu].
  unfold add_app_route. rewrite has_role_manager, Hauth, Hmay.
  unfold quota_ok. split.
  - intros Hok lim. apply add_app_not_quota.
    rewrite Hlog. simpl. rewrite Hu. simpl. unfold role_is. simpl.
    destruct Hok as [Hsuper|Hlt].
    + rewrite Hsuper. done.
    + apply andb_false_iff. right. lia.
  - intros Hno. rewrite (add_app_quota_step w req g name u) by done.
    assert (role u = Some "manager") as Hrole.
    { unfold may_manage in Hmay. apply orb_true_iff in Hmay as [H|H];
        apply bool_decide_eq_true in H; [|done]. destruct Hno. by left. }
    rewrite Hrole. simpl.
    case_match eqn:Hle; [done|]. destruct Hno. right. lia.
Qed.

Lemma quota_check_witness :
  (add_app_route sample_stores
     (post "manager_user" "app_manager_123" (add_form "" "")) stuck_rng).1.1
  ≠ QuotaExceeded 10
  ∧ add_app_route sample_stores
      (post "second_manager" "pw2" (add_form "" "")) stuck_rng
    = (QuotaExceeded 2, sample_stores, stuck_rng).
Proof.
  split.
  - refine (proj1 (quota_check sample_stores
                    (post "manager_user" "app_manager_123" (add_form "" "")) stuck_rng
                    "manager_user"
                    {| password := "app_manager_123"; role := Some "manager";
                       max_apps := Some 10; owns_apps := Some 0 |}
                    _ _ _) _ 10).
    + vm_compute. reflexivity.
    + vm_compute. reflexivity.
    + vm_compute. reflexivity.
    + right. simpl. lia.
  - refine (proj2 (quota_check sample_stores
                    (post "second_manager" "pw2" (add_form "" "")) stuck_rng
                    "second_manager"
                    {| password := "pw2"; role := Some "manager";
                       max_apps := Some 2; owns_apps := Some 2 |}
                    _ _ _) _).
    + vm_compute. reflexivity.
    + vm_compute. reflexivity.
    + vm_compute. reflexivity.
    + intros [H|H]; [discriminate H|]. simpl in H. lia.
Defined.

(** ** The SN ownership check *)

Lemma sn_conflict_Some sn_config owner_user sn_list sn o :
  sn_conflict sn_config owner_user sn_list = Some (sn, o) →
  sn ∈ sn_list ∧ sn_config !! sn = Some o ∧ o ≠ "" ∧ Some o ≠ owner_user.
Proof.
  induction sn_list as [|x l IH]; simpl; [done|].
  destruct (sn_config !! x) as [ox|] eqn:Hx.
  - destruct (Text.truthy ox && negb (bool_decide (Some ox = owner_user))) eqn:Hc.
    + intros [= -> ->]. apply andb_true_iff in Hc as [Ht Hne].
      apply truthy_true in Ht. apply negb_true_iff, bool_decide_eq_false in Hne.
      repeat split; [apply list_elem_of_here|done..].
    + intros H. destruct (IH H) as (? & ? & ? & ?).
      repeat split; [by apply list_elem_of_further|done..].
  - intros H. destruct (IH H) as (? & ? & ? & ?).
    repeat split; [by apply list_elem_of_further|done..].
Qed.

Lemma sn_conflict_None sn_config owner_user sn_list :
  sn_conflict sn_config owner_user sn_list = None →
  ∀ sn o, sn ∈ sn_list → sn_config !! sn = Some o → o = "" ∨ Some o = owner_user.
Proof.
  induction sn_list as [|x l IH]; simpl; intros Hnone sn o Hin Hsn.
  - by apply elem_of_nil in Hin.
  - apply elem_of_cons in Hin as [->|Hin].
    + rewrite Hsn in Hnone.
      destruct (Text.truthy o) eqn:Ht; simpl in Hnone.
      * destruct (decide (Some o = owner_user)) as [|Hne]; [by right|].
        by rewrite (bool_decide_eq_false_2 _ Hne) in Hnone.
      * left. by apply truthy_false.
    + refine (IH _ sn o Hin Hsn).
      destruct (sn_config !! x) as [ox|]; [|done].
      by destruct (Text.truthy ox && negb (bool_decide (Some ox = owner_user))).
Qed.

(** An SnConflict answer always comes from the loop over the requested
    list. *)
Lemma add_app_conflict_source w req g sn o :
  (add_app w req g).1.1 = SnConflict sn o →
  sn_conflict (sn_owners w) (get_logged_in_user req) (requested_sn_list req)
  = Some (sn, o).
Proof.
  unfold add_app, requested_sn_list, load_sn_config. cbv zeta.
  repeat (case_match; simpl; try done).
  all: by intros [= -> ->].
Qed.

(** Past the file and quota checks, a conflict found by the loop is the
    answer. *)
Lemma add_app_conflict_step w req g sn o :
  file_info_complete req = true →
  (role_is "manager" (get_logged_in_user req ≫= (users w !!.))
   && (default 9999 ((get_logged_in_user req ≫= (users w !!.)) ≫= max_apps)
       <=? default 0 ((get_logged_in_user req ≫= (users w !!.)) ≫= owns_apps)))
  = false →
  sn_conflict (sn_owners w) (get_logged_in_user req) (requested_sn_list req)
  = Some (sn, o) →
  add_app w req g = (SnConflict sn o, w, g).
Proof.
  intros Hfile Hq Hc.
  unfold add_app, load_config, load_sn_config. cbv zeta.
  unfold file_info_complete in Hfile. rewrite Hfile, Hq. simpl.
  unfold requested_sn_list in Hc. cbv zeta in Hc. by rewrite Hc.
Qed.

Lemma append_and_count_sn_owners w owner_user user_data current_owns app_data :
  sn_owners (append_and_count w owner_user user_data current_owns app_data)
  = sn_owners w.
Proof.
  unfold append_and_count. by repeat case_match.
Qed.

Lemma add_app_sn_owners w req g : sn_owners (add_app w req g).1.2 = sn_owners w.
Proof.
  unfold add_app. cbv zeta.
  repeat (case_match; simpl; try done); apply append_and_count_sn_owners.
Qed.

Lemma has_role_cases required_role (f : handler) w req g :
  (has_role required_role f w req g).1.2 = w
  ∨ has_role required_role f w req g = f w req g.
Proof.
  unfold has_role. repeat case_match; simpl; auto.
Qed.

Lemma add_sn_owner_named w req g :
  named_owners (sn_owners w) → named_owners (sn_owners (add_sn_owner w req g).1.2).
Proof.
  intros Hnamed. unfold add_sn_owner, load_sn_config, load_config.
  destruct (form req !! "sn_code") as [code_field|]; [|done].
  destruct (form req !! "sn_owner") as [owner_field|]; [|done].
  destruct (Text.truthy (Text.strip code_field)); [|done].
  destruct (Text.truthy (Text.strip owner_field)) eqn:Ht; [|done]. simpl.
  destruct (role_is "manager" _); [|done]. simpl.
  intros sn o. destruct (decide (Text.strip code_field = sn)) as [<-|Hne].
  - rewrite lookup_insert_eq. intros [= <-]. by apply truthy_true.
  - rewrite lookup_insert_ne by done. apply Hnamed.
Qed.

Lemma delete_sn_owner_named w req g :
  named_owners (sn_owners w) →
  named_owners (sn_owners (delete_sn_owner w req g).1.2).
Proof.
  intros Hnamed. unfold delete_sn_owner, load_sn_config.
  destruct (form req !! "sn_code_to_delete") as [sn_code|]; [|done].
  case_bool_decide; [|done]. simpl.
  intros sn o [_ Hsn]%lookup_delete_Some. by apply (Hnamed sn).
Qed.

(** The registry routes keep every registered owner a non-empty name, so
    that an owner the loop of [add_app] skips as empty never arises from
    them. *)
Lemma registry_routes_named_owners w req g :
  named_owners (sn_owners w) →
  named_owners (sn_owners (add_sn_owner_route w req g).1.2)
  ∧ named_owners (sn_owners (delete_sn_owner_route w req g).1.2).
Proof.
  intros Hnamed. split.
  - destruct (has_role_cases "super" add_sn_owner w req g) as [H|H];
      unfold add_sn_owner_route; rewrite H; [done|by apply add_sn_owner_named].
  - destruct (has_role_cases "super" delete_sn_owner w req g) as [H|H];
      unfold delete_sn_owner_route; rewrite H; [done|by apply delete_sn_owner_named].
Qed.

Lemma quota_ok_passes w req name u :
  get_logged_in_user req = Some name → users w !! name = Some u →
  quota_ok u →
  (role_is "manager" (get_logged_in_user req ≫= (users w !!.))
   && (default 9999 ((get_logged_in_user req ≫= (users w !!.)) ≫= max_apps)
       <=? default 0 ((get_logged_in_user req ≫= (users w !!.)) ≫= owns_apps)))
  = false.
Proof.
  intros Hlog Hu Hok. rewrite Hlog. simpl. rewrite Hu. simpl.
  unfold role_is. simpl. destruct Hok as [Hsuper|Hlt].
  - by rewrite Hsuper.
  - apply andb_false_iff. right. lia.
Qed.

(** C5: for an authenticated manager or super user past the file and quota
    checks, the answer is SnConflict exactly when some requested SN is
    registered to another account name; the answer names such an SN with
    its registered owner and leaves the stores alone; requested SNs that the
    registry lacks never produce it; and no outcome of an add changes the
    registry. *)
Theorem sn_conflict_check (w : stores) (req : request) (g : rng)
    (name : string) (u : user) :
  authenticated w req = Some (name, u) →
  may_manage u = true →
  file_info_complete req = true →
  quota_ok u →
  ((∃ sn o, (add_app_route w req g).1.1 = SnConflict sn o)
   ↔ ∃ sn o, sn ∈ requested_sn_list req ∧ owned_by_other (sn_owners w) name sn o)
  ∧ (∀ sn o, (add_app_route w req g).1.1 = SnConflict sn o →
       sn ∈ requested_sn_list req ∧ owned_by_other (sn_owners w) name sn o
       ∧ (add_app_route w req g).1.2 = w)
  ∧ (Forall (λ sn, sn_owners w !! sn = None) (requested_sn_list req) →
     ∀ sn o, (add_app_route w req g).1.1 ≠ SnConflict sn o)
  ∧ sn_owners (add_app_route w req g).1.2 = sn_owners w.
Proof.
  intros Hauth Hmay Hfile Hok.
  destruct (authenticated_user _ _ _ _ Hauth) as [Hlog Hu].
  pose proof (quota_ok_passes w req name u Hlog Hu Hok) as Hq.
  unfold add_app_route. rewrite has_role_manager, Hauth, Hmay.
  assert (∀ sn o, (add_app w req g).1.1 = SnConflict sn o →
            sn ∈ requested_sn_list req ∧ owned_by_other (sn_owners w) name sn o
            ∧ (add_app w req g).1.2 = w) as Hsrc.
  { intros sn o Hres.
    pose proof (add_app_conflict_source _ _ _ _ _ Hres) as Hc.
    rewrite (add_app_conflict_step w req g sn o Hfile Hq Hc). simpl.
    apply sn_conflict_Some in Hc as (Hin & Hsn & Hne & Hother).
    rewrite Hlog in Hother. repeat split; [done..|congruence]. }
  split; [split|split; [|split]].
  - intros (sn & o & Hres). exists sn, o. destruct (Hsrc sn o Hres) as (? & ? & _).
    done.
  - intros (sn & o & Hin & Hsn & Hne & Hother).
    destruct (sn_conflict (sn_owners w) (get_logged_in_user req)
                (requested_sn_list req)) as [[sn' o']|] eqn:Hc.
    + exists sn', o'. by rewrite (add_app_conflict_step w req g sn' o' Hfile Hq Hc).
    + destruct (sn_conflict_None _ _ _ Hc sn o Hin Hsn) as [?|Heq]; [done|].
      rewrite Hlog in Heq. congruence.
  - exact Hsrc.
  - intros Hall sn o Hres. destruct (Hsrc sn o Hres) as (Hin & [Hsn _] & _).
    rewrite Forall_forall in Hall. specialize (Hall sn Hin). congruence.
  - apply add_app_sn_owners.
Qed.

Lemma sn_conflict_check_witness :
  ∃ sn o,
    (add_app_route sample_stores
       (post "super_admin" "123456" (add_form "" "7, 114514")) stuck_rng).1.1
    = SnConflict sn o.
Proof.
  refine (proj2 (proj1 (sn_conflict_check sample_stores
                   (post "super_admin" "123456" (add_form "" "7, 114514")) stuck_rng
                   "super_admin"
                   {| password := "123456"; role := Some "super";
                      max_apps := None; owns_apps := None |}
                   _ _ _ _)) _).
  - vm_compute. reflexivity.
  - vm_compute. reflexivity.
  - vm_compute. reflexivity.
  - left. reflexivity.
  - exists "114514", "manager_user". split.
    + vm_compute. apply list_elem_of_further, list_elem_of_here.
    + split; [vm_compute; reflexivity|split; discriminate].
Defined.

Example sn_conflict_names_owner :
  (add_app_route sample_stores
     (post "super_admin" "123456" (add_form "" "7, 114514")) stuck_rng).1.1
  = SnConflict "114514" "manager_user".
Proof. vm_compute. reflexivity. Qed.

Example sn_owner_may_use_it :
  succeeded (add_app_route sample_stores
     (post "manager_user" "app_manager_123" (add_form "5" "114514")) stuck_rng).1.1
  = true.
Proof. vm_compute. reflexivity. Qed.

(** ** The owns_apps counter *)

Lemma add_app_added w req g name u e w' g' :
  get_logged_in_user req = Some name → users w !! name = Some u →
  add_app w req g = (Added e, w', g') →
  w' = append_and_count w (Some name) (Some u) (default 0 (owns_apps u)) e.
Proof.
  intros Hlog Hu. unfold add_app, load_config. cbv zeta.
  rewrite Hlog. simpl. rewrite Hu. simpl.
  repeat (case_match; simpl; try done); by intros [= <- <- _].
Qed.

Lemma append_and_count_manager w name u n e :
  role u = Some "manager" →
  append_and_count w (Some name) (Some u) n e
  = save_config (<[name := set_owns_apps (n + 1) u]> (users w))
      (save_apps (apps w ++ [e]) w).
Proof.
  intros Hrole. unfold append_and_count, role_is. simpl. by rewrite Hrole.
Qed.

Lemma next_match_None {A} (p : A → bool) (l : list A) :
  next_match p l = None → List.filter (λ x, negb (p x)) l = l.
Proof.
  induction l as [|x l IH]; simpl; [done|].
  destruct (p x); [done|]. simpl. intros H. by rewrite IH.
Qed.

Lemma next_match_Some {A} (p : A → bool) (l : list A) (x : A) :
  next_match p l = Some x → x ∈ l ∧ p x = true.
Proof.
  induction l as [|y l IH]; simpl; [done|].
  destruct (p y) eqn:Hy.
  - intros [= ->]. split; [apply list_elem_of_here|done].
  - intros H. destruct (IH H). split; [by apply list_elem_of_further|done].
Qed.

Lemma filter_length_le {A} (p : A → bool) (l : list A) :
  (length (List.filter p l) ≤ length l)%nat.
Proof.
  induction l as [|x l IH]; simpl; [done|]. destruct (p x); simpl; lia.
Qed.

(** Removing the matches of a found entry shortens the list. *)
Lemma next_match_shortens {A} (p : A → bool) (l : list A) (x : A) :
  next_match p l = Some x →
  (length (List.filter (λ y, negb (p y)) l) < length l)%nat.
Proof.
  induction l as [|y l IH]; simpl; [done|].
  destruct (p y) eqn:Hy; simpl.
  - intros _. pose proof (filter_length_le (λ y, negb (p y)) l). lia.
  - intros H. specialize (IH H). lia.
Qed.

Lemma delete_app_deleted w req g id w' g' :
  delete_app w req g = (Deleted id, w', g') →
  ∃ e, next_match (λ app, eqb_str (str_id app) id) (apps w) = Some e
       ∧ form req !! "app_id_to_delete" = Some id
       ∧ w' = decrement_owner (e_owner e)
                (save_apps
                   (List.filter (λ app, negb (eqb_str (str_id app) id)) (apps w)) w).
Proof.
  unfold delete_app, load_apps. cbv zeta.
  destruct (form req !! "app_id_to_delete") as [id'|] eqn:Hid; simpl; [|done].
  destruct (Text.truthy id'); simpl; [|done].
  case_match; [done|].
  destruct (next_match (λ app, eqb_str (str_id app) id') (apps w)) as [e|] eqn:He.
  - case_match; [|done]. intros [= <- <- _]. by exists e.
  - rewrite (next_match_None _ _ He).
    rewrite (proj2 (Nat.ltb_ge _ _)) by lia. done.
Qed.

Lemma decrement_owner_users app_owner w1 name u' :
  users (decrement_owner app_owner w1) !! name = Some u' →
  users w1 !! name = Some u'
  ∨ ∃ u, app_owner = Some name ∧ users w1 !! name = Some u
         ∧ role u = Some "manager"
         ∧ u' = set_owns_apps (Z.max 0 (default 1 (owns_apps u) - 1)) u.
Proof.
  unfold decrement_owner, load_config.
  destruct app_owner as [o|]; [|by left].
  destruct (users w1 !! o) as [u|] eqn:Ho; [|by left].
  case_bool_decide as Hrole; [|by left]. simpl.
  destruct (decide (o = name)) as [->|Hne].
  - rewrite lookup_insert_eq. intros [= <-]. right. by exists u.
  - rewrite lookup_insert_ne by done. by left.
Qed.

Lemma decrement_owner_owner w1 name u :
  users w1 !! name = Some u → role u = Some "manager" →
  users (decrement_owner (Some name) w1)
  = <[name := set_owns_apps (Z.max 0 (default 1 (owns_apps u) - 1)) u]> (users w1).
Proof.
  intros Hu Hrole. unfold decrement_owner, load_config. rewrite Hu.
  by rewrite bool_decide_eq_true_2.
Qed.

(** One delete request: every account is as before or has a counter that
    is not negative. *)
Lemma delete_route_floor w req g name u' :
  users (delete_app_route w req g).1.2 !! name = Some u' →
  users w !! name = Some u' ∨ ∃ n, owns_apps u' = Some n ∧ 0 ≤ n.
Proof.
  unfold delete_app_route. rewrite has_role_manager.
  destruct (authenticated w req) as [[? u]|]; [|by left].
  destruct (may_manage u); [|by left].
  destruct (delete_app w req g) as [[o w'] g'] eqn:Hdel. simpl.
  destruct (succeeded o) eqn:Ho.
  - destruct o; try done;
      try (exfalso; unfold delete_app in Hdel; repeat case_match; simplify_eq; fail).
    apply delete_app_deleted in Hdel as (e & _ & _ & ->).
    intros [H|(u0 & _ & _ & _ & ->)]%decrement_owner_users; [by left|].
    right. eexists. split; [done|]. lia.
  - pose proof (delete_app_failed w req g) as Hf. rewrite Hdel in Hf. simpl in Hf.
    rewrite (Hf Ho). by left.
Qed.

Lemma run_deletes_floor reqs w g name u' :
  users (run_deletes reqs w g) !! name = Some u' →
  users w !! name = Some u' ∨ ∃ n, owns_apps u' = Some n ∧ 0 ≤ n.
Proof.
  revert w g. induction reqs as [|req reqs IH]; intros w g; simpl; [by left|].
  pose proof (delete_route_floor w req g name u') as Hstep.
  destruct (delete_app_route w req g) as [[o w1] g1]. simpl in Hstep.
  intros [H|H]%IH; [by apply Hstep|by right].
Qed.

Lemma route_inv (f : handler) w req g o w' g' :
  has_role "manager" f w req g = (o, w', g') →
  succeeded o = true →
  f w req g = (o, w', g')
  ∧ ∃ name u, authenticated w req = Some (name, u) ∧ may_manage u = true.
Proof.
  rewrite has_role_manager.
  destruct (authenticated w req) as [[name u]|]; [|by intros [= <- _ _]].
  destruct (may_manage u) eqn:Hmay; [|by intros [= <- _ _]].
  intros ? _. split; [done|]. by exists name, u.
Qed.

(** The counter on the two routes: a successful add by a manager sets that
    manager's owns_apps to the former value (0 if lacking) plus one and
    touches no other account; a successful delete sets the owns_apps of the
    owner of the first entry with the requested id, when that is a manager
    account, to the former value less one, but not below 0, and touches no
    other account; and after any sequence of delete requests every account
    is either as it was or has a counter that is not negative. *)
Lemma owns_apps_counter (w : stores) (req : request) (g : rng) :
  (∀ name u e w' g',
     authenticated w req = Some (name, u) → role u = Some "manager" →
     add_app_route w req g = (Added e, w', g') →
     users w' !! name ≫= owns_apps = Some (default 0 (owns_apps u) + 1)
     ∧ ∀ other, other ≠ name → users w' !! other = users w !! other)
  ∧ (∀ id w' g',
       delete_app_route w req g = (Deleted id, w', g') →
       ∃ e, next_match (λ app, eqb_str (str_id app) id) (apps w) = Some e
            ∧ ∀ owner uo,
                e_owner e = Some owner → users w !! owner = Some uo →
                role uo = Some "manager" →
                users w' !! owner ≫= owns_apps
                = Some (Z.max 0 (default 1 (owns_apps uo) - 1))
                ∧ (∀ n, owns_apps uo = Some n → 1 ≤ n →
                        users w' !! owner ≫= owns_apps = Some (n - 1))
                ∧ ∀ other, other ≠ owner → users w' !! other = users w !! other)
  ∧ (∀ reqs name u',
       users (run_deletes reqs w g) !! name = Some u' →
       users w !! name = Some u' ∨ ∃ n, owns_apps u' = Some n ∧ 0 ≤ n).
Proof.
  split; [|split].
  - intros name u e w' g' Hauth Hrole Hadd.
    destruct (authenticated_user _ _ _ _ Hauth) as [Hlog Hu].
    apply route_inv in Hadd as [Hadd _]; [|done].
    rewrite (add_app_added _ _ _ _ _ _ _ _ Hlog Hu Hadd).
    rewrite append_and_count_manager by done. simpl. split.
    + by rewrite lookup_insert_eq.
    + intros other Hne. by rewrite lookup_insert_ne.
  - intros id w' g' Hdel.
    apply route_inv in Hdel as [Hdel _]; [|done].
    apply delete_app_deleted in Hdel as (e & He & _ & ->).
    exists e. split; [done|]. intros owner uo Howner Huo Hrole.
    rewrite Howner, (decrement_owner_owner _ owner uo) by done. simpl.
    rewrite lookup_insert_eq. simpl. split; [done|]. split.
    + intros n -> Hn. simpl. f_equal. lia.
    + intros other Hne. by rewrite lookup_insert_ne.
  - intros reqs name u'. apply run_deletes_floor.
Qed.

Lemma owns_apps_counter_witness :
  let w := sample_stores in
  let add := post "manager_user" "app_manager_123" (add_form "5" "") in
  let del := post "manager_user" "app_manager_123" [("app_id_to_delete", "602750")] in
  users (add_app_route w add stuck_rng).1.2 !! "manager_user" ≫= owns_apps = Some 1
  ∧ (∃ e, next_match (λ app, eqb_str (str_id app) "602750") (apps w) = Some e)
  ∧ (users (run_deletes [del; del] w stuck_rng) !! "manager_user"
     = Some {| password := "app_manager_123"; role := Some "manager";
               max_apps := Some 10; owns_apps := Some 0 |}
     ∨ ∃ n, Some 0 = Some n ∧ 0 ≤ n).
Proof.
  intros w add del.
  pose (u := {| password := "app_manager_123"; role := Some "manager";
                max_apps := Some 10; owns_apps := Some 0 |}).
  split; [|split].
  - refine (proj1 (proj1 (owns_apps_counter w add stuck_rng)
                     "manager_user" u (added_entry 5 "manager_user" [])
                     (add_app_route w add stuck_rng).1.2
                     (add_app_route w add stuck_rng).2 _ _ _)).
    + vm_compute. reflexivity.
    + reflexivity.
    + vm_compute. reflexivity.
  - destruct (proj1 (proj2 (owns_apps_counter w del stuck_rng))
                "602750" (delete_app_route w del stuck_rng).1.2
                (delete_app_route w del stuck_rng).2) as (e & He & _).
    + vm_compute. reflexivity.
    + by exists e.
  - refine (proj2 (proj2 (owns_apps_counter w del stuck_rng))
              [del; del] "manager_user" u _).
    vm_compute. reflexivity.
Defined.

(** C4, the defect: a delete removes every entry with the requested id and
    lowers the counter of the first one's owner only.  The second manager
    adds an app without id, and both draws of the generator give the id the
    catalog holds; the first manager then deletes that id.  Both entries
    are gone, the first manager's counter went from 1 to 0, and the second
    manager's counter stays at 1 with no app left. *)
Theorem delete_keeps_counter_of_second_owner :
  let add := post "second_manager" "pw2" (add_form "" "") in
  let del := post "manager_user" "app_manager_123" [("app_id_to_delete", "602750")] in
  let '(o1, w1, g1) := add_app_route two_managers_stores add stuck_rng in
  let '(o2, w2, g2) := delete_app_route w1 del g1 in
  users two_managers_stores !! "manager_user" ≫= owns_apps = Some 1
  ∧ o1 = Added (added_entry 602750 "second_manager" [])
  ∧ e_owner <$> apps w1 = [Some "manager_user"; Some "second_manager"]
  ∧ users w1 !! "second_manager" ≫= owns_apps = Some 1
  ∧ o2 = Deleted "602750"
  ∧ apps w2 = []
  ∧ users w2 !! "manager_user" ≫= owns_apps = Some 0
  ∧ users w2 !! "second_manager" ≫= owns_apps = Some 1.
Proof. vm_compute. repeat split; reflexivity. Qed.

(** ** Who may delete *)

(** An entry that carries an id is a non-empty object. *)
Lemma id_dict_truthy e : present (e_id e) = true → dict_truthy e = true.
Proof.
  unfold dict_truthy. intros ->. by rewrite !orb_true_r.
Qed.

Lemma delete_app_found w req g name u app_id e :
  get_logged_in_user req = Some name → users w !! name = Some u →
  form req !! "app_id_to_delete" = Some app_id → app_id ≠ "" →
  next_match (λ app, eqb_str (str_id app) app_id) (apps w) = Some e →
  dict_truthy e = true →
  delete_app w req g
  = if negb (bool_decide (e_owner e = Some name))
       && negb (bool_decide (role u = Some "super"))
    then (Forbidden, w, g)
    else (Deleted app_id,
          decrement_owner (e_owner e)
            (save_apps
               (List.filter (λ app, negb (eqb_str (str_id app) app_id)) (apps w)) w),
          g).
Proof.
  intros Hlog Hu Hid Hne He Ht.
  unfold delete_app, load_apps, load_config. cbv zeta.
  rewrite Hid, Hlog. simpl. rewrite (proj2 (truthy_true app_id) Hne). simpl.
  rewrite He, Hu. simpl. rewrite Ht. simpl.
  destruct (negb (bool_decide (e_owner e = Some name))
            && negb (bool_decide (role u = Some "super"))); [done|].
  by rewrite (proj2 (Nat.ltb_lt _ _) (next_match_shortens _ _ _ He)).
Qed.

(** The check on the first entry with the requested id: for an
    authenticated manager or super user and a request whose id finds the
    (non-empty) entry [e] first, the delete succeeds exactly when the role
    is super or the user owns [e]; then every entry with that id is removed
    and the counter of [e]'s owner lowered; otherwise the answer is
    Forbidden and the stores are untouched.  A super user always
    succeeds. *)
Lemma delete_authorisation (w : stores) (req : request) (g : rng)
    (name : string) (u : user) (app_id : string) (e : app_entry) :
  authenticated w req = Some (name, u) →
  may_manage u = true →
  form req !! "app_id_to_delete" = Some app_id → app_id ≠ "" →
  next_match (λ app, eqb_str (str_id app) app_id) (apps w) = Some e →
  dict_truthy e = true →
  ((delete_app_route w req g).1.1 = Deleted app_id
   ↔ role u = Some "super" ∨ e_owner e = Some name)
  ∧ (role u = Some "super" ∨ e_owner e = Some name →
     delete_app_route w req g
     = (Deleted app_id,
        decrement_owner (e_owner e)
          (save_apps
             (List.filter (λ app, negb (eqb_str (str_id app) app_id)) (apps w)) w),
        g))
  ∧ (¬ (role u = Some "super" ∨ e_owner e = Some name) →
     delete_app_route w req g = (Forbidden, w, g))
  ∧ (role u = Some "super" → (delete_app_route w req g).1.1 = Deleted app_id).
Proof.
  intros Hauth Hmay Hid Hne He Ht.
  destruct (authenticated_user _ _ _ _ Hauth) as [Hlog Hu].
  unfold delete_app_route. rewrite has_role_manager, Hauth, Hmay.
  rewrite (delete_app_found w req g name u app_id e) by done.
  destruct (decide (e_owner e = Some name)) as [Hown|Hown];
    destruct (decide (role u = Some "super")) as [Hsup|Hsup].
  all: rewrite ?(bool_decide_eq_true_2 _ Hown), ?(bool_decide_eq_false_2 _ Hown),
         ?(bool_decide_eq_true_2 _ Hsup), ?(bool_decide_eq_false_2 _ Hsup); simpl.
  all: repeat split; try done; try tauto; auto.
  all: intros [?|?]; done.
Qed.

Lemma delete_authorisation_witness :
  (delete_app_route sample_stores
     (post "super_admin" "123456" [("app_id_to_delete", "602750")]) stuck_rng).1.1
  = Deleted "602750"
  ∧ delete_app_route sample_stores
      (post "second_manager" "pw2" [("app_id_to_delete", "602750")]) stuck_rng
    = (Forbidden, sample_stores, stuck_rng).
Proof.
  split.
  - refine (proj2 (proj2 (proj2 (delete_authorisation sample_stores
              (post "super_admin" "123456" [("app_id_to_delete", "602750")])
              stuck_rng "super_admin"
              {| password := "123456"; role := Some "super";
                 max_apps := None; owns_apps := None |}
              "602750" (sample_app 602750 "manager_user" (Some []))
              _ _ _ _ _ _))) _).
    + vm_compute. reflexivity.
    + vm_compute. reflexivity.
    + vm_compute. reflexivity.
    + discriminate.
    + vm_compute. reflexivity.
    + vm_compute. reflexivity.
    + reflexivity.
  - refine (proj1 (proj2 (proj2 (delete_authorisation sample_stores
              (post "second_manager" "pw2" [("app_id_to_delete", "602750")])
              stuck_rng "second_manager"
              {| password := "pw2"; role := Some "manager";
                 max_apps := Some 2; owns_apps := Some 2 |}
              "602750" (sample_app 602750 "manager_user" (Some []))
              _ _ _ _ _ _))) _).
    + vm_compute. reflexivity.
    + vm_compute. reflexivity.
    + vm_compute. reflexivity.
    + discriminate.
    + vm_compute. reflexivity.
    + vm_compute. reflexivity.
    + intros [H|H]; discriminate H.
Defined.

(** C6, the defect: the owner is checked on the first entry with the
    requested id, and every entry with that id is removed.  The second
    manager adds an app without id, and both draws of the generator give
    the id the catalog holds; the first manager, who is no super user and
    does not own the new entry, then deletes that id, and the new entry is
    removed with the first manager's own. *)
Theorem delete_removes_entry_of_other_owner :
  let add := post "second_manager" "pw2" (add_form "" "") in
  let del := post "manager_user" "app_manager_123" [("app_id_to_delete", "602750")] in
  let theirs := added_entry 602750 "second_manager" [] in
  let '(o1, w1, g1) := add_app_route two_managers_stores add stuck_rng in
  let '(o2, w2, g2) := delete_app_route w1 del g1 in
  o1 = Added theirs
  ∧ apps w1 = [sample_app 602750 "manager_user" (Some []); theirs]
  ∧ e_owner theirs = Some "second_manager"
  ∧ (authenticated w1 del ≫= λ principal, role principal.2) = Some "manager"
  ∧ o2 = Deleted "602750"
  ∧ apps w2 = [].
Proof. vm_compute. repeat split; reflexivity. Qed.

(** The same with the roles swapped: the request is refused, and both
    entries stay. *)
Example delete_refused_on_first_entry :
  let w := save_apps [sample_app 7 "manager_user" (Some []);
                      sample_app 7 "second_manager" (Some ["S1"])] sample_stores in
  delete_app_route w (post "second_manager" "pw2" [("app_id_to_delete", "7")])
    stuck_rng
  = (Forbidden, w, stuck_rng).
Proof. vm_compute. reflexivity. Qed.

(** An empty object in the catalog is found by the id text "None" and, being
    no true value, is not checked: any manager removes it and, with it,
    every entry without id, whoever owns it. *)
Example delete_empty_object :
  let theirs :=
    {| e_appId := None; e_id := None; e_name := None; e_appName := Some "B";
       e_packageName := None; e_downloadUrl := None; e_iconUrl := None;
       e_size := None; e_md5 := None; e_desc := None; e_updateTime := None;
       e_owner := Some "second_manager"; e_allowedSn := None; e_rest := [] |} in
  let w := save_apps [named_entry None []; theirs] sample_stores in
  delete_app_route w
    (post "manager_user" "app_manager_123" [("app_id_to_delete", "None")]) stuck_rng
  = (Deleted "None", save_apps [] sample_stores, stuck_rng).
Proof. vm_compute. reflexivity. Qed.

(** ** The client API *)

Lemma map_app_fields_spec int e g :
  map_app_fields int e g
  = if renders int e
    then (Some (mapped int e (randint 100000 999999 g).1),
          (randint 100000 999999 g).2)
    else (None, (map_app_fields int e g).2).
Proof.
  unfold map_app_fields, renders, mapped. cbv zeta.
  destruct (division_overflows (size_bytes int e)); simpl; [done|].
  destruct (package_name e) as [p|]; simpl; [|done].
  unfold get_or, get_with.
  destruct (e_id e) as [n|]; simpl.
  - by destruct (upload_time_converts int e).
  - destruct (bool_decide ("id" ∈ e_rest e)); simpl; [done|].
    by destruct (upload_time_converts int e).
Qed.

(** The empty object renders with every default; a name makes the package
    name, lowered and with its spaces replaced; a key that holds null gives
    null; and a null id or updateTime raises. *)
Example map_app_fields_ex :
  (map_app_fields digits_int (named_entry None []) stuck_rng).1
  = Some {| m_id := 602750; m_summary := Some ""; m_icon := Some DEFAULT_ICON_URL;
            m_apkUrl := Some ""; m_apkName := "com.default.unknown_app";
            m_apkSize := 0; m_apkMd5 := Some "" |}
  ∧ (map_app_fields digits_int (named_entry (Some "N m") ["packageName"; "desc"])
       stuck_rng).1
    = Some {| m_id := 602750; m_summary := None; m_icon := Some DEFAULT_ICON_URL;
              m_apkUrl := Some ""; m_apkName := "com.default.n_m";
              m_apkSize := 0; m_apkMd5 := Some "" |}
  ∧ (map_app_fields digits_int (named_entry None ["name"]) stuck_rng).1 = None
  ∧ (map_app_fields digits_int (named_entry None ["id"]) stuck_rng).1 = None
  ∧ (map_app_fields digits_int (named_entry None ["updateTime"]) stuck_rng).1 = None.
Proof. vm_compute. repeat split; reflexivity. Qed.

(** A size that [int] rejects counts as 0; one of 401 digits raises. *)
Example map_app_fields_size_ex :
  m_apkSize <$> (map_app_fields digits_int
                   (with_size "12 MB" (sample_app 1 "manager_user" None)) stuck_rng).1
  = Some 0
  ∧ (map_app_fields digits_int
       (with_size huge_size (sample_app 1 "manager_user" None)) stuck_rng).1
    = None
  ∧ division_overflows (2 ^ 1044 - 2 ^ 990 - 1) = false.
Proof. vm_compute. repeat split; reflexivity. Qed.

(** A listing that is produced renders the list it was given, entry by
    entry. *)
Lemma api_response_search_Some int data_list g items :
  (api_response_search int data_list g).1 = Some items →
  length items = length data_list
  ∧ ∀ i e, data_list !! i = Some e →
      renders int e = true
      ∧ items !! i
        = Some (simplified
                  (mapped int e (randint 100000 999999 (λ n, g (i + n)%nat)).1)).
Proof.
  revert g items. induction data_list as [|a l IH]; intros g items; simpl.
  - intros [= <-]. split; [done|]. intros i e Hi. by rewrite lookup_nil in Hi.
  - rewrite (map_app_fields_spec int a g).
    destruct (renders int a) eqn:Ha; [|done].
    specialize (IH (randint 100000 999999 g).2).
    destruct (api_response_search int l (randint 100000 999999 g).2)
      as [[rest|] g2]; [|done].
    simpl in *. intros [= <-]. destruct (IH rest eq_refl) as [Hlen Hitems].
    split; [simpl; by rewrite Hlen|].
    intros [|i] e; simpl.
    + intros [= <-]. by split.
    + intros Hi. apply (Hitems i e Hi).
Qed.

(** A listing is produced exactly when every entry renders. *)
Lemma api_response_search_is_Some int data_list g :
  is_Some (api_response_search int data_list g).1
  ↔ ∀ e, e ∈ data_list → renders int e = true.
Proof.
  revert g. induction data_list as [|a l IH]; intros g; simpl.
  - split; [|by eexists]. intros _ e He. by apply elem_of_nil in He.
  - rewrite (map_app_fields_spec int a g).
    destruct (renders int a) eqn:Ha.
    + specialize (IH (randint 100000 999999 g).2).
      destruct (api_response_search int l (randint 100000 999999 g).2)
        as [[rest|] g2]; simpl in *.
      * split; [|by eexists]. intros _ e [->|He]%elem_of_cons; [done|].
        by apply IH; [eexists|].
      * split; [by intros [? ?]|]. intros H. apply IH. intros e He.
        apply H. by apply list_elem_of_further.
    + simpl. split; [by intros [? ?]|]. intros H.
      specialize (H a (list_elem_of_here _ _)). congruence.
Qed.

(** The generator after a listing that is produced: one draw per entry. *)
Lemma api_response_search_rng int data_list g items n :
  (api_response_search int data_list g).1 = Some items →
  (api_response_search int data_list g).2 n = g (length data_list + n)%nat.
Proof.
  revert g items. induction data_list as [|a l IH]; intros g items; simpl; [done|].
  rewrite (map_app_fields_spec int a g).
  destruct (renders int a) eqn:Ha; [|done].
  specialize (IH (randint 100000 999999 g).2).
  destruct (api_response_search int l (randint 100000 999999 g).2)
    as [[rest|] g2]; [|done].
  simpl in *. intros _. by rewrite (IH rest eq_refl).
Qed.

(** An entry stored by the add route with a size of 401 digits. *)
Example add_app_huge_size :
  (add_app_route (save_apps [] sample_stores)
     (post "manager_user" "app_manager_123" (sized_add_form huge_size "5"))
     stuck_rng).1.1
  = Added (with_size huge_size (added_entry 5 "manager_user" [])).
Proof. vm_compute. reflexivity. Qed.

(** C8, the defect: the add route stores the size the form reports as it
    is, and a size too large for the division of [map_app_fields] makes
    both listings raise: no entry of the catalog appears, not the new one
    and not the public one that was there before. *)
Theorem listings_raise_on_huge_size :
  let add := post "manager_user" "app_manager_123" (sized_add_form huge_size "5") in
  let '(o, w, g) := add_app_route sample_stores add stuck_rng in
  o = Added (with_size huge_size (added_entry 5 "manager_user" []))
  ∧ apps w = [sample_app 602750 "manager_user" (Some []);
              with_size huge_size (added_entry 5 "manager_user" [])]
  ∧ (system_apps_list digits_int w g).1 = None
  ∧ (auto_update_list digits_int w g).1 = None
  ∧ (system_apps_list digits_int sample_stores g).1
    = Some [simplified (mapped digits_int (sample_app 602750 "manager_user" (Some []))
                          602750)].
Proof. vm_compute. repeat split; reflexivity. Qed.

(** Both listings hand the whole of apps.json to the response builder, with
    no SN filter.  When every entry of the catalog renders the answer is a
    listing, and a listing has one item per catalog entry, at the same
    position and with that entry's id, link, summary, icon and size,
    whatever the entry's allowedSn. *)
Lemma listings_unfiltered (int : string → option Z) (w : stores) (g : rng) :
  auto_update_list int w g = system_apps_list int w g
  ∧ ((∀ e, e ∈ apps w → renders int e = true) →
     ∃ items, (system_apps_list int w g).1 = Some items)
  ∧ ∀ items,
      (system_apps_list int w g).1 = Some items →
      length items = length (apps w)
      ∧ ∀ i e,
          apps w !! i = Some e →
          ∃ item, items !! i = Some item
                  ∧ s_downloadUrl item = get_or "downloadUrl" e_downloadUrl e ""
                  ∧ s_summary item = get_or "desc" e_desc e ""
                  ∧ s_icon item = get_or "iconUrl" e_iconUrl e DEFAULT_ICON_URL
                  ∧ s_size item = size_bytes int e
                  ∧ ∀ n, e_id e = Some n → s_id item = n.
Proof.
  split; [done|]. split.
  - intros Hall. by apply api_response_search_is_Some.
  - intros items Hitems.
    apply api_response_search_Some in Hitems as [Hlen Hitems].
    split; [done|]. intros i e He.
    destruct (Hitems i e He) as [_ Hitem].
    eexists. split; [exact Hitem|]. simpl. repeat split.
    by intros n ->.
Qed.

Lemma listings_unfiltered_witness :
  let w := save_apps [sample_app 1 "manager_user" (Some ["S1"]);
                      sample_app 2 "manager_user" None] sample_stores in
  filter_apps_by_sn (apps w) "" = []
  ∧ ∃ items item, (system_apps_list digits_int w stuck_rng).1 = Some items
                  ∧ items !! 1%nat = Some item
                  ∧ s_id item = 2.
Proof.
  intros w. split; [reflexivity|].
  destruct (proj1 (proj2 (listings_unfiltered digits_int w stuck_rng)))
    as [items Hitems].
  { intros e He. vm_compute in He.
    apply elem_of_cons in He as [->|He];
      [|apply elem_of_cons in He as [->|He]; [|by apply elem_of_nil in He]];
      vm_compute; reflexivity. }
  destruct (proj2 (proj2 (listings_unfiltered digits_int w stuck_rng)) items Hitems)
    as [_ Hall].
  destruct (Hall 1%nat (sample_app 2 "manager_user" None))
    as (item & Hitem & _ & _ & _ & _ & Hid); [reflexivity|].
  exists items, item. split; [exact Hitems|]. split; [exact Hitem|].
  apply Hid. reflexivity.
Defined.

Lemma next_match_none_iff {A} (p : A → bool) (l : list A) :
  next_match p l = None ↔ ∀ x, x ∈ l → p x = false.
Proof.
  induction l as [|y l IH]; simpl.
  - split; [|done]. intros _ x Hx. by apply elem_of_nil in Hx.
  - destruct (p y) eqn:Hy.
    + split; [done|]. intros H. specialize (H y (list_elem_of_here _ _)). congruence.
    + rewrite IH. split.
      * intros H x [->|Hx]%elem_of_cons; auto.
      * intros H x Hx. apply H. by apply list_elem_of_further.
Qed.

(** The apk route answers with its error only on an empty catalog. *)
Lemma apk_details_error int w req g :
  (∃ errNo errMsg, (apk_details int w req g).1 = ApkError errNo errMsg)
  ↔ apps w = [].
Proof.
  unfold apk_details, load_apps. cbv zeta.
  destruct (next_match _ (apps w)) as [e|] eqn:He; simpl.
  - apply next_match_Some in He as [Hin _].
    destruct (apps w) as [|first rest]; [by apply elem_of_nil in Hin|].
    destruct (dict_truthy e); simpl.
    + destruct (map_app_fields int e g) as [[m|] g1]; simpl;
        (split; [by intros (? & ? & ?)|done]).
    + destruct (map_app_fields int first g) as [[m|] g1]; simpl;
        (split; [by intros (? & ? & ?)|done]).
  - destruct (apps w) as [|first rest]; simpl.
    + split; [done|]. intros _. by eexists _, _.
    + destruct (map_app_fields int first g) as [[m|] g1]; simpl;
        (split; [by intros (? & ? & ?)|done]).
Qed.

(** The apk route on the entry it settles on. *)
Lemma apk_details_renders int e g :
  renders int e = true →
  match map_app_fields int e g with
  | (None, g1) => (ApkRaised, g1)
  | (Some mapped_app, g1) =>
      (ApkSucc {| a_id := m_id mapped_app; a_apkName := m_apkName mapped_app;
                  a_url := m_apkUrl mapped_app; a_size := m_apkSize mapped_app;
                  a_md5 := m_apkMd5 mapped_app |}, g1)
  end
  = (ApkSucc (details int e (randint 100000 999999 g).1),
     (randint 100000 999999 g).2).
Proof.
  intros Hr. by rewrite map_app_fields_spec, Hr.
Qed.

(** C9, the defect: when the first entry of the catalog has a size too
    large for the division of [map_app_fields], as the add route stores it
    from the form, the apk route raises on an appId that matches no entry:
    the catalog is not empty, and the answer is neither the first entry's
    details nor the route's own error. *)
Theorem apk_details_raises_on_huge_size :
  let add := post "manager_user" "app_manager_123" (sized_add_form huge_size "5") in
  let '(o, w, g) := add_app_route (save_apps [] sample_stores) add stuck_rng in
  let req := query [("appId", "777")] in
  o = Added (with_size huge_size (added_entry 5 "manager_user" []))
  ∧ apps w = [with_size huge_size (added_entry 5 "manager_user" [])]
  ∧ next_match (λ app_data, eqb_str (str_id app_data) (str_opt (args req !! "appId")))
      (apps w) = None
  ∧ (apk_details digits_int w req g).1 = ApkRaised.
Proof. vm_compute. repeat split; reflexivity. Qed.

(** When no entry's id reads as the requested appId, the apk route falls
    back to the first catalog entry, whatever its allowedSn: when that
    entry renders the answer is its details; and the route answers with its
    error, "App list is empty", only when there is no entry at all. *)
Lemma apk_details_fallback (int : string → option Z) (w : stores)
    (req : request) (g : rng) :
  (∀ e, e ∈ apps w → str_id e ≠ str_opt (args req !! "appId")) →
  match apps w with
  | [] => apk_details int w req g = (ApkError 1000 "App list is empty", g)
  | first :: _ =>
      renders int first = true →
      apk_details int w req g
      = (ApkSucc (details int first (randint 100000 999999 g).1),
         (randint 100000 999999 g).2)
  end
  ∧ ((∃ errNo errMsg, (apk_details int w req g).1 = ApkError errNo errMsg)
     ↔ apps w = []).
Proof.
  intros Hno. split; [|apply apk_details_error].
  assert (next_match (λ app_data, eqb_str (str_id app_data)
                                    (str_opt (args req !! "appId"))) (apps w)
          = None) as Hnone.
  { apply next_match_none_iff. intros e He. unfold eqb_str.
    apply bool_decide_eq_false_2. by apply Hno. }
  unfold apk_details, load_apps. cbv zeta. rewrite Hnone. simpl.
  destruct (apps w) as [|first rest]; [done|].
  apply apk_details_renders.
Qed.

Lemma apk_details_fallback_witness :
  let w := save_apps [sample_app 1 "manager_user" (Some ["S1"]);
                      sample_app 2 "manager_user" (Some [])] sample_stores in
  (apk_details digits_int w (query [("appId", "777")]) stuck_rng).1
  = ApkSucc {| a_id := 1; a_apkName := "com.mt.manager";
               a_url := Some "http://154.9.228.196:8080/static/mt.apk";
               a_size := 259634232;
               a_md5 := Some "c783de55addbf3cf3606f825fd784aee" |}.
Proof.
  intros w.
  refine (f_equal fst
            (proj1 (apk_details_fallback digits_int w (query [("appId", "777")])
                      stuck_rng _) _)).
  - intros e He. vm_compute in He.
    apply elem_of_cons in He as [->|He];
      [|apply elem_of_cons in He as [->|He]; [|by apply elem_of_nil in He]].
    + vm_compute. discriminate.
    + vm_compute. discriminate.
  - vm_compute. reflexivity.
Defined.

(** ** Fresh ids *)

Lemma randint_range lo hi g :
  lo ≤ hi → lo ≤ (randint lo hi g).1 ≤ hi.
Proof.
  intros Hle. unfold randint. simpl.
  pose proof (Z.mod_pos_bound (g 0%nat) (hi - lo + 1)). lia.
Qed.

(** C1, the defect: with no id in the form and a generator that yields
    602750 twice, the add succeeds and stores a second entry with the id
    602750 the catalog already holds.  The second draw is not compared with
    the catalog. *)
Theorem add_app_second_draw_unchecked :
  let req := post "manager_user" "app_manager_123" (add_form "" "") in
  let result := add_app_route sample_stores req stuck_rng in
  result.1.1 = Added (added_entry 602750 "manager_user" [])
  ∧ e_id <$> apps sample_stores = [Some 602750]
  ∧ e_id <$> apps result.1.2 = [Some 602750; Some 602750].
Proof.
  vm_compute. repeat split; reflexivity.
Qed.

(** A numeric id that the catalog already holds is refused, whatever the
    generator does. *)
Example add_app_explicit_duplicate g :
  add_app_route sample_stores
    (post "manager_user" "app_manager_123" (add_form " 602750 " "")) g
  = (DuplicateId 602750, sample_stores, g).
Proof. vm_compute. reflexivity. Qed.

(** A non-numeric text in the id field gets a generated id, and a collision
    of that id is refused like an explicit one. *)
Example add_app_text_id :
  (add_app_route sample_stores
     (post "manager_user" "app_manager_123" (add_form "abc" "")) stuck_rng).1.1
  = DuplicateId 602750.
Proof. vm_compute. reflexivity. Qed.

(** A form without the id field, and an id of digits that [int] rejects. *)
Example add_app_raises :
  (add_app_route sample_stores
     (post "manager_user" "app_manager_123"
        [("downloadUrl_hidden", "u"); ("size_hidden", "1"); ("md5_hidden", "m");
         ("appName", "A"); ("packageName", "com.a")]) stuck_rng).1.1 = Raised
  ∧ (add_app_route sample_stores
       (post "manager_user" "app_manager_123"
          (add_form (String (ascii_of_nat 178) "") "")) stuck_rng).1.1 = Raised.
Proof. split; vm_compute; reflexivity. Qed.

Lemma existsb_id_false (all_apps : list app_entry) (n : Z) :
  existsb (λ app, bool_decide (e_id app = Some n)) all_apps = false
  ↔ Some n ∉ e_id <$> all_apps.
Proof.
  induction all_apps as [|a l IH]; simpl.
  - split; [|done]. intros _ H. by apply elem_of_nil in H.
  - rewrite orb_false_iff, IH, not_elem_of_cons, bool_decide_eq_false.
    split; intros [Ha Hl]; (split; [congruence|done]).
Qed.

(** The id of an added entry, by the text of the id field: a numeric text
    is taken as it is and is new to the catalog; any other non-empty text
    gets the first draw, which is new to the catalog; an empty text gets
    the first draw if that is new, and else the second draw, whatever it
    is. *)
Lemma add_app_added_id w req g e w' g' :
  add_app w req g = (Added e, w', g') →
  ∃ id_field, form req !! "id" = Some id_field ∧
    let app_id_raw := Text.strip id_field in
    let first := (randint 100000 999999 g).1 in
    let second := (randint 100000 999999 (randint 100000 999999 g).2).1 in
    if Text.truthy app_id_raw && Text.isdigit app_id_raw then
      Text.int app_id_raw = e_id e ∧ e_id e ∉ e_id <$> apps w
    else if Text.truthy app_id_raw then
      e_id e = Some first ∧ Some first ∉ e_id <$> apps w
    else
      (e_id e = Some first ∧ Some first ∉ e_id <$> apps w)
      ∨ (e_id e = Some second ∧ Some first ∈ e_id <$> apps w).
Proof.
  unfold add_app, load_apps. cbv zeta.
  case_match; [done|]. case_match; [done|].
  destruct (sn_conflict _ _ _) as [[??]|]; [done|].
  case_match; [done|].
  destruct (form req !! "id") as [id_field|]; [|done].
  intros Hadd. exists id_field. split; [done|]. revert Hadd.
  destruct (Text.truthy (Text.strip id_field)) eqn:Ht; simpl.
  - destruct (Text.isdigit (Text.strip id_field)) eqn:Hd; simpl.
    + destruct (Text.int (Text.strip id_field)) as [n|]; simpl; [|done].
      destruct (existsb _ (apps w)) eqn:Hex; [done|].
      intros [= <- _ _]. simpl. split; [done|]. by apply existsb_id_false.
    + destruct (existsb _ (apps w)) eqn:Hex; [done|].
      intros [= <- _ _]. simpl. split; [done|]. by apply existsb_id_false.
  - destruct (existsb _ (apps w)) eqn:Hex.
    + intros [= <- _ _]. simpl. right. split; [done|].
      destruct (decide (Some (100000 + g 0%nat `mod` (999999 - 100000 + 1))
                          ∈ e_id <$> apps w)) as [|Hn]; [done|].
      apply existsb_id_false in Hn. simpl in Hex. congruence.
    + intros [= <- _ _]. simpl. left. split; [done|]. by apply existsb_id_false.
Qed.

(** ** A quota scenario *)

(** A manager at the limit of two apps is refused; after deleting one of the
    two the counter is 1 and the next add brings it back to 2. *)
Example quota_scenario :
  let w0 := save_apps [sample_app 1 "second_manager" (Some []);
                       sample_app 2 "second_manager" (Some [])] sample_stores in
  let add := post "second_manager" "pw2" (add_form "3" "") in
  let del := post "second_manager" "pw2" [("app_id_to_delete", "1")] in
  let '(o1, w1, g1) := add_app_route w0 add stuck_rng in
  let '(o2, w2, g2) := delete_app_route w1 del g1 in
  let '(o3, w3, g3) := add_app_route w2 add g2 in
  o1 = QuotaExceeded 2
  ∧ o2 = Deleted "1"
  ∧ users w2 !! "second_manager" ≫= owns_apps = Some 1
  ∧ o3 = Added (added_entry 3 "second_manager" [])
  ∧ users w3 !! "second_manager" ≫= owns_apps = Some 2
  ∧ e_id <$> apps w3 = [Some 2; Some 3].
Proof. vm_compute. repeat split; reflexivity. Qed.

(** * Further properties *)

(** ** White space *)

Lemma rstrip_idempotent s : Text.rstrip (Text.rstrip s) = Text.rstrip s.
Proof.
  induction s as [|c s IH]; simpl; [done|].
  destruct (Text.rstrip s) as [|c' r] eqn:Hr.
  - destruct (Text.isspace c) eqn:Hc; simpl; [done|]. by rewrite Hc.
  - simpl in *. by rewrite IH.
Qed.

(** A text that does not start with white space keeps its first character
    under [rstrip]. *)
Lemma lstrip_rstrip_head c s :
  Text.isspace c = false →
  Text.lstrip (Text.rstrip (String c s)) = Text.rstrip (String c s).
Proof.
  intros Hc. simpl. rewrite Hc. destruct (Text.rstrip s); simpl; by rewrite Hc.
Qed.

Lemma lstrip_rstrip_lstrip s :
  Text.lstrip (Text.rstrip (Text.lstrip s)) = Text.rstrip (Text.lstrip s).
Proof.
  induction s as [|c s IH]; [done|].
  change (Text.lstrip (String c s))
    with (if Text.isspace c then Text.lstrip s else String c s).
  destruct (Text.isspace c) eqn:Hc; [exact IH|]. by apply lstrip_rstrip_head.
Qed.

Lemma strip_idempotent s : Text.strip (Text.strip s) = Text.strip s.
Proof.
  unfold Text.strip. by rewrite lstrip_rstrip_lstrip, rstrip_idempotent.
Qed.

(** ** More on the visibility filter *)

Lemma list_filter_app {A} (p : A → bool) (l1 l2 : list A) :
  List.filter p (l1 ++ l2) = List.filter p l1 ++ List.filter p l2.
Proof.
  induction l1 as [|a l1 IH]; simpl; [done|]. rewrite IH. by destruct (p a).
Qed.

Lemma list_filter_twice {A} (p : A → bool) (l : list A) :
  List.filter p (List.filter p l) = List.filter p l.
Proof.
  induction l as [|a l IH]; simpl; [done|].
  destruct (p a) eqn:Ha; simpl; [|done]. by rewrite Ha, IH.
Qed.

Lemma list_filter_sublist_weaken {A} (p q : A → bool) (l : list A) :
  (∀ x, p x = true → q x = true) →
  List.filter p l `sublist_of` List.filter q l.
Proof.
  intros Hpq. induction l as [|a l IH]; simpl; [constructor|].
  destruct (p a) eqn:Ha.
  - rewrite (Hpq a Ha). by constructor.
  - destruct (q a); [by constructor|done].
Qed.

(** X1: white space around the client SN changes nothing: the result for
    an SN is the result for the stripped SN. *)
Theorem filter_apps_by_sn_strip (all_apps : list app_entry) (client_sn : string) :
  filter_apps_by_sn all_apps (Text.strip client_sn)
  = filter_apps_by_sn all_apps client_sn.
Proof.
  by rewrite !filter_apps_by_sn_filter, strip_idempotent.
Qed.

(** X2: filtering a filtered catalog again, for the same SN, removes
    nothing more. *)
Theorem filter_apps_by_sn_idempotent (all_apps : list app_entry) (client_sn : string) :
  filter_apps_by_sn (filter_apps_by_sn all_apps client_sn) client_sn
  = filter_apps_by_sn all_apps client_sn.
Proof.
  rewrite !filter_apps_by_sn_filter. apply list_filter_twice.
Qed.

(** X3: whether an entry is shown does not depend on the entries around
    it: the filter of two catalogs put end to end is the two filters put
    end to end. *)
Theorem filter_apps_by_sn_app (apps1 apps2 : list app_entry) (client_sn : string) :
  filter_apps_by_sn (apps1 ++ apps2) client_sn
  = filter_apps_by_sn apps1 client_sn ++ filter_apps_by_sn apps2 client_sn.
Proof.
  rewrite !filter_apps_by_sn_filter. apply list_filter_app.
Qed.

(** X4: presenting an SN never hides an app: what a client without SN
    gets is a subsequence of what any client gets. *)
Theorem filter_apps_by_sn_anonymous (all_apps : list app_entry) (client_sn : string) :
  filter_apps_by_sn all_apps "" `sublist_of` filter_apps_by_sn all_apps client_sn.
Proof.
  rewrite !filter_apps_by_sn_filter. apply list_filter_sublist_weaken.
  intros e. unfold visible. simpl. intros ->. by destruct (Text.truthy _).
Qed.

(** ** More on authentication *)

Lemma has_role_any_outcome required_role (f : handler) :
  has_role required_role f = has_role_any LoginRequired AccessDenied required_role f.
Proof. reflexivity. Qed.

Lemma has_role_any_super {R} (lr ad : R) f w req g :
  has_role_any lr ad "super" f w req g
  = match authenticated w req with
    | None => (lr, w, g)
    | Some (_, u) =>
        if bool_decide (role u = Some "super") then f w req g else (ad, w, g)
    end.
Proof.
  unfold has_role_any, authenticated, load_config.
  destruct (authorization req) as [[username pw]|]; [|done].
  destruct (users w !! username) as [u|]; [|done].
  destruct (eqb_str (password u) pw); simpl; [|done].
  unfold eqb_str. destruct (role u) as [r|]; simpl; [|done].
  destruct (decide (r = "super")) as [->|Hs]; [done|].
  rewrite (bool_decide_eq_false_2 (r = "super")) by done. simpl.
  by rewrite (bool_decide_eq_false_2 (Some r = Some "super")) by congruence.
Qed.

Lemma has_role_any_manager {R} (lr ad : R) f w req g :
  has_role_any lr ad "manager" f w req g
  = match authenticated w req with
    | None => (lr, w, g)
    | Some (_, u) => if may_manage u then f w req g else (ad, w, g)
    end.
Proof.
  unfold has_role_any, authenticated, load_config, may_manage.
  destruct (authorization req) as [[username pw]|]; [|done].
  destruct (users w !! username) as [u|]; [|done].
  destruct (eqb_str (password u) pw); simpl; [|done].
  unfold eqb_str.
  destruct (role u) as [r|]; simpl; [|done].
  destruct (decide (r = "super")) as [->|Hs]; [done|].
  rewrite (bool_decide_eq_false_2 (r = "super")) by done. simpl.
  rewrite (bool_decide_eq_false_2 (Some r = Some "super")) by congruence. simpl.
  destruct (decide (r = "manager")) as [->|Hm]; [done|].
  rewrite (bool_decide_eq_false_2 (r = "manager")) by done.
  by rewrite (bool_decide_eq_false_2 (Some r = Some "manager")) by congruence.
Qed.

(** X5: who gets past [has_role].  Without valid credentials the answer
    is the 401, whatever the required role; a super route refuses (403)
    every account whose role is not super; a manager route runs the handler
    for the roles super and manager and refuses the others; a refusal
    returns the stores as they were. *)
Theorem has_role_access (f : handler) (w : stores) (req : request) (g : rng) :
  (authenticated w req = None →
   ∀ required_role, has_role required_role f w req g = (LoginRequired, w, g))
  ∧ (∀ name u,
       authenticated w req = Some (name, u) →
       has_role "super" f w req g
       = (if bool_decide (role u = Some "super") then f w req g
          else (AccessDenied, w, g))
       ∧ has_role "manager" f w req g
         = (if bool_decide (role u = Some "super")
               || bool_decide (role u = Some "manager")
            then f w req g
            else (AccessDenied, w, g))).
Proof.
  split.
  - intros Hnone required_role. unfold authenticated in Hnone.
    unfold has_role, load_config.
    destruct (authorization req) as [[username pw]|]; [|done].
    destruct (users w !! username) as [u|]; [|done].
    by destruct (eqb_str (password u) pw).
  - intros name u Hauth. split.
    + by rewrite has_role_any_outcome, has_role_any_super, Hauth.
    + by rewrite has_role_manager, Hauth.
Qed.

Lemma has_role_access_witness :
  has_role "super" add_sn_owner sample_stores
    (post "nobody" "x" []) stuck_rng
  = (LoginRequired, sample_stores, stuck_rng)
  ∧ has_role "super" add_sn_owner sample_stores
      (post "manager_user" "app_manager_123"
         [("sn_code", "7"); ("sn_owner", "manager_user")]) stuck_rng
    = (AccessDenied, sample_stores, stuck_rng).
Proof.
  split.
  - apply (proj1 (has_role_access add_sn_owner sample_stores
                    (post "nobody" "x" []) stuck_rng)).
    vm_compute. reflexivity.
  - refine (eq_trans
              (proj1 (proj2 (has_role_access add_sn_owner sample_stores
                 (post "manager_user" "app_manager_123"
                    [("sn_code", "7"); ("sn_owner", "manager_user")]) stuck_rng)
                 "manager_user"
                 {| password := "app_manager_123"; role := Some "manager";
                    max_apps := Some 10; owns_apps := Some 0 |} _)) _).
    + vm_compute. reflexivity.
    + reflexivity.
Defined.

(** ** The stored SN list *)

Lemma split_nonempty sep s : Text.split sep s ≠ [].
Proof.
  destruct s as [|c s]; simpl; [done|].
  destruct (decide (c = sep)); [done|]. by destruct (Text.split sep s).
Qed.

Lemma split_free_of sep s : Forall (λ x, free_of sep x = true) (Text.split sep s).
Proof.
  induction s as [|c s IH]; simpl.
  - by repeat constructor.
  - destruct (decide (c = sep)) as [->|Hne].
    + by constructor.
    + destruct (Text.split sep s) as [|h t]; inversion IH; subst.
      * repeat constructor. unfold free_of. simpl.
        by rewrite (bool_decide_eq_false_2 _ Hne).
      * constructor; [|done]. unfold free_of in *. simpl.
        by rewrite (bool_decide_eq_false_2 _ Hne).
Qed.

Lemma lstrip_all_chars p s :
  Text.all_chars p s = true → Text.all_chars p (Text.lstrip s) = true.
Proof.
  induction s as [|c s IH]; simpl; [done|].
  intros [Hc Hs]%andb_true_iff. destruct (Text.isspace c); [by apply IH|].
  simpl. by rewrite Hc, Hs.
Qed.

Lemma rstrip_all_chars p s :
  Text.all_chars p s = true → Text.all_chars p (Text.rstrip s) = true.
Proof.
  induction s as [|c s IH]; simpl; [done|].
  intros [Hc Hs]%andb_true_iff. specialize (IH Hs).
  destruct (Text.rstrip s) as [|c' r].
  - destruct (Text.isspace c); simpl; [done|]. by rewrite Hc.
  - change (Text.all_chars p (String c (String c' r)))
      with (p c && Text.all_chars p (String c' r)).
    by rewrite Hc, IH.
Qed.

(** X6: every SN that [add_app] takes from the comma-separated field is
    non-empty, has no white space at either end and contains no comma. *)
Theorem parse_sn_list_elements (allowed_sn_raw : string) :
  Forall (λ sn, sn ≠ "" ∧ Text.strip sn = sn ∧ free_of "," sn = true)
         (parse_sn_list allowed_sn_raw).
Proof.
  unfold parse_sn_list. apply Forall_forall.
  intros sn [Hin Ht]%list_elem_of_In%filter_In.
  apply list_elem_of_In, list_elem_of_fmap in Hin as (x & -> & Hx).
  split; [by apply truthy_true|]. split; [apply strip_idempotent|].
  pose proof (split_free_of "," allowed_sn_raw) as Hfree.
  rewrite Forall_forall in Hfree. specialize (Hfree x Hx).
  unfold Text.strip, free_of in *. by apply rstrip_all_chars, lstrip_all_chars.
Qed.

Example parse_sn_list_ex :
  parse_sn_list " 114514 , , A B,7 " = ["114514"; "A B"; "7"].
Proof. reflexivity. Qed.

Lemma requested_sn_list_nonempty req :
  Forall (λ sn, sn ≠ "") (requested_sn_list req).
Proof.
  unfold requested_sn_list, parse_sn_list. cbv zeta. case_match; [|constructor].
  apply Forall_forall. intros sn [_ Ht]%list_elem_of_In%filter_In.
  by apply truthy_true.
Qed.

(** ** What a successful add stores *)

Lemma append_and_count_apps w owner_user user_data current_owns app_data :
  apps (append_and_count w owner_user user_data current_owns app_data)
  = apps w ++ [app_data].
Proof.
  unfold append_and_count. by repeat case_match.
Qed.

Lemma add_app_added_fields w req g e w' g' :
  add_app w req g = (Added e, w', g') →
  e_owner e = get_logged_in_user req
  ∧ e_allowedSn e = Some (requested_sn_list req)
  ∧ e_downloadUrl e = form req !! "downloadUrl_hidden"
  ∧ e_size e = form req !! "size_hidden"
  ∧ e_md5 e = form req !! "md5_hidden"
  ∧ e_appName e = form req !! "appName"
  ∧ e_packageName e = form req !! "packageName"
  ∧ truthy_opt (e_appName e) = true
  ∧ truthy_opt (e_packageName e) = true
  ∧ apps w' = apps w ++ [e].
Proof.
  unfold add_app, requested_sn_list. cbv zeta.
  case_match; [done|]. case_match; [done|].
  destruct (sn_conflict _ _ _) as [[??]|]; [done|].
  destruct (truthy_opt (form req !! "appName")
            && truthy_opt (form req !! "packageName")) eqn:Hreq; [|done].
  apply andb_true_iff in Hreq as [Hn Hp]. simpl.
  destruct (form req !! "id") as [id_field|]; [|done].
  destruct (if Text.truthy (Text.strip id_field) && Text.isdigit (Text.strip id_field)
            then _ else _) as [[new_id g1]|]; [|done].
  repeat (case_match; simpl; try done);
    intros [= <- <- _]; simpl; rewrite append_and_count_apps; done.
Qed.

(** X7: a successful add appends exactly one entry, at the end of the
    catalog and leaves the others in place; the entry is owned by the
    authenticated user, carries the parsed SN list and the three upload
    fields of the form, and has a non-empty name and package name; the SN
    registry is not touched. *)
Theorem add_app_stores (w : stores) (req : request) (g : rng)
    (e : app_entry) (w' : stores) (g' : rng) :
  add_app_route w req g = (Added e, w', g') →
  apps w' = apps w ++ [e]
  ∧ sn_owners w' = sn_owners w
  ∧ (∃ name u, authenticated w req = Some (name, u) ∧ e_owner e = Some name)
  ∧ e_allowedSn e = Some (requested_sn_list req)
  ∧ e_downloadUrl e = form req !! "downloadUrl_hidden"
  ∧ e_size e = form req !! "size_hidden"
  ∧ e_md5 e = form req !! "md5_hidden"
  ∧ truthy_opt (e_appName e) = true
  ∧ truthy_opt (e_packageName e) = true.
Proof.
  intros Hroute.
  pose proof (add_app_sn_owners w req g) as Hsn.
  apply route_inv in Hroute as [Hadd (name & u & Hauth & _)]; [|done].
  rewrite Hadd in Hsn. simpl in Hsn.
  destruct (authenticated_user _ _ _ _ Hauth) as [Hlog _].
  apply add_app_added_fields in Hadd
    as (Howner & Hsns & Hurl & Hsize & Hmd5 & _ & _ & Hn & Hp & Happs).
  rewrite Hlog in Howner. repeat split; try done. by exists name, u.
Qed.

Lemma add_app_stores_witness :
  let req := post "manager_user" "app_manager_123" (add_form "5" "114514, 7") in
  apps (add_app_route sample_stores req stuck_rng).1.2
  = apps sample_stores ++ [added_entry 5 "manager_user" ["114514"; "7"]].
Proof.
  intros req.
  refine (proj1 (add_app_stores sample_stores req stuck_rng
                   (added_entry 5 "manager_user" ["114514"; "7"])
                   (add_app_route sample_stores req stuck_rng).1.2
                   (add_app_route sample_stores req stuck_rng).2 _)).
  vm_compute. reflexivity.
Defined.

Lemma visible_shown_to client_sn e sn_list :
  e_allowedSn e = Some sn_list → Forall (λ sn, sn ≠ "") sn_list →
  visible (Text.strip client_sn) e = true ↔ shown_to client_sn sn_list.
Proof.
  intros Hsns Hne. rewrite visible_spec. unfold spec_visible, shown_to.
  rewrite Hsns. destruct (decide (Text.strip client_sn = "")) as [Hs|Hs].
  - split; [intros [= <-]; by left|].
    intros [->|Hin]; [done|]. rewrite Hs in Hin.
    rewrite Forall_forall in Hne. by destruct (Hne "" Hin).
  - split.
    + intros [[= <-]|[_ Hin]]; [by left|by right].
    + intros [->|Hin]; [by left|]. right. split; [|done].
      intros ->. by apply elem_of_nil in Hin.
Qed.

(** X8: add, then filter.  After a successful add the result of the filter
    for any client SN is the former result, followed by the new entry
    exactly when the request named no SN or named the client's (stripped)
    SN. *)
Theorem add_app_then_filter (w : stores) (req : request) (g : rng)
    (e : app_entry) (w' : stores) (g' : rng) (client_sn : string) :
  add_app_route w req g = (Added e, w', g') →
  filter_apps_by_sn (apps w') client_sn
  = filter_apps_by_sn (apps w) client_sn
    ++ (if decide (shown_to client_sn (requested_sn_list req)) then [e] else []).
Proof.
  intros Hroute.
  apply route_inv in Hroute as [Hadd _]; [|done].
  apply add_app_added_fields in Hadd as (_ & Hsns & _ & _ & _ & _ & _ & _ & _ & ->).
  rewrite !filter_apps_by_sn_filter, list_filter_app. f_equal.
  pose proof (visible_shown_to client_sn e _ Hsns (requested_sn_list_nonempty req))
    as Hvis.
  simpl. destruct (decide (shown_to client_sn (requested_sn_list req))) as [Hs|Hs].
  - by rewrite (proj2 Hvis Hs).
  - destruct (visible (Text.strip client_sn) e); [|done].
    destruct Hs. by apply Hvis.
Qed.

Lemma add_app_then_filter_witness :
  let req := post "manager_user" "app_manager_123" (add_form "5" "114514, 7") in
  filter_apps_by_sn (apps (add_app_route sample_stores req stuck_rng).1.2) " 7 "
  = filter_apps_by_sn (apps sample_stores) " 7 "
    ++ [added_entry 5 "manager_user" ["114514"; "7"]].
Proof.
  intros req.
  refine (add_app_then_filter sample_stores req stuck_rng
            (added_entry 5 "manager_user" ["114514"; "7"])
            (add_app_route sample_stores req stuck_rng).1.2
            (add_app_route sample_stores req stuck_rng).2 " 7 " _).
  vm_compute. reflexivity.
Defined.

(** ** What a delete removes *)

Lemma decrement_owner_keeps app_owner w1 :
  apps (decrement_owner app_owner w1) = apps w1
  ∧ sn_owners (decrement_owner app_owner w1) = sn_owners w1.
Proof.
  unfold decrement_owner. by repeat case_match.
Qed.

(** X9: a successful delete removes every entry whose id reads as the
    requested text and nothing else: the catalog afterwards is the former
    one without those entries, in the same order; the SN registry is not
    touched. *)
Theorem delete_app_removes (w : stores) (req : request) (g : rng)
    (app_id : string) (w' : stores) (g' : rng) :
  delete_app_route w req g = (Deleted app_id, w', g') →
  apps w' = List.filter (λ app, negb (eqb_str (str_id app) app_id)) (apps w)
  ∧ apps w' `sublist_of` apps w
  ∧ (∀ e, e ∈ apps w' ↔ e ∈ apps w ∧ str_id e ≠ app_id)
  ∧ (length (apps w') < length (apps w))%nat
  ∧ sn_owners w' = sn_owners w.
Proof.
  intros Hroute. apply route_inv in Hroute as [Hdel _]; [|done].
  apply delete_app_deleted in Hdel as (e0 & He0 & _ & ->).
  destruct (decrement_owner_keeps (e_owner e0)
              (save_apps (List.filter (λ app, negb (eqb_str (str_id app) app_id))
                            (apps w)) w)) as [-> ->]. simpl.
  split; [done|]. split; [apply list_filter_sublist|]. split; [|split; [|done]].
  - intros e. rewrite list_elem_of_In, filter_In, <- list_elem_of_In.
    unfold eqb_str. rewrite negb_true_iff, bool_decide_eq_false. done.
  - by apply (next_match_shortens _ _ e0).
Qed.

Lemma delete_app_removes_witness :
  let w := save_apps [sample_app 1 "manager_user" (Some []);
                      sample_app 2 "second_manager" (Some []);
                      sample_app 1 "second_manager" None] sample_stores in
  let req := post "manager_user" "app_manager_123" [("app_id_to_delete", "1")] in
  apps (delete_app_route w req stuck_rng).1.2
  = [sample_app 2 "second_manager" (Some [])].
Proof.
  intros w req.
  refine (eq_trans (proj1 (delete_app_removes w req stuck_rng "1"
                             (delete_app_route w req stuck_rng).1.2
                             (delete_app_route w req stuck_rng).2 _)) _).
  - vm_compute. reflexivity.
  - vm_compute. reflexivity.
Defined.

(** ** What add and delete leave of the accounts *)

Lemma append_and_count_settings w owner_user user_data current_owns app_data name :
  owner_user ≫= (users w !!.) = user_data →
  account_settings <$> users (append_and_count w owner_user user_data
                                 current_owns app_data) !! name
  = account_settings <$> users w !! name.
Proof.
  intros Hdata. unfold append_and_count, load_config.
  case_match; [|done].
  destruct owner_user as [o|]; [|done]. destruct user_data as [u|]; [|done].
  simpl in *. destruct (decide (o = name)) as [->|Hne].
  - rewrite lookup_insert_eq, Hdata. done.
  - by rewrite lookup_insert_ne.
Qed.

Lemma add_app_settings w req g name :
  account_settings <$> users (add_app w req g).1.2 !! name
  = account_settings <$> users w !! name.
Proof.
  unfold add_app, load_config. cbv zeta.
  repeat (case_match; simpl; try done); by apply append_and_count_settings.
Qed.

Lemma decrement_owner_settings app_owner w1 name :
  account_settings <$> users (decrement_owner app_owner w1) !! name
  = account_settings <$> users w1 !! name.
Proof.
  unfold decrement_owner, load_config.
  destruct app_owner as [o|]; [|done].
  destruct (users w1 !! o) as [u|] eqn:Ho; [|done].
  case_bool_decide; [|done]. simpl.
  destruct (decide (o = name)) as [->|Hne].
  - by rewrite lookup_insert_eq, Ho.
  - by rewrite lookup_insert_ne.
Qed.

Lemma delete_app_settings w req g name :
  account_settings <$> users (delete_app w req g).1.2 !! name
  = account_settings <$> users w !! name.
Proof.
  unfold delete_app. cbv zeta.
  repeat (case_match; simpl; try done). by rewrite decrement_owner_settings.
Qed.

Lemma has_role_settings required_role (f : handler) w req g name :
  (account_settings <$> users (f w req g).1.2 !! name
   = account_settings <$> users w !! name) →
  account_settings <$> users (has_role required_role f w req g).1.2 !! name
  = account_settings <$> users w !! name.
Proof.
  intros Hf. destruct (has_role_cases required_role f w req g) as [H|H];
    by rewrite H.
Qed.

(** X10: the add and delete routes create and remove no account and change
    no password, role or max_apps: apart from the owns_apps counters the
    accounts stay as they are. *)
Theorem app_routes_keep_accounts (w : stores) (req : request) (g : rng)
    (name : string) :
  account_settings <$> users (add_app_route w req g).1.2 !! name
  = account_settings <$> users w !! name
  ∧ account_settings <$> users (delete_app_route w req g).1.2 !! name
    = account_settings <$> users w !! name.
Proof.
  split; apply has_role_settings;
    [apply add_app_settings | apply delete_app_settings].
Qed.

(** ** Deleting what is not there *)

Lemma authenticated_settings w w' req name u :
  (∀ n, account_settings <$> users w' !! n = account_settings <$> users w !! n) →
  authenticated w req = Some (name, u) →
  ∃ u', authenticated w' req = Some (name, u')
        ∧ account_settings u' = account_settings u.
Proof.
  intros Hset. unfold authenticated.
  destruct (authorization req) as [[username pw]|]; [|done].
  specialize (Hset username).
  destruct (users w !! username) as [u0|]; [|done].
  destruct (users w' !! username) as [u0'|]; [|done].
  simpl in Hset. injection Hset as Hpw Hrole Hmax.
  unfold eqb_str. rewrite Hpw. case_bool_decide; [|done].
  intros [= <- <-]. exists u0'. split; [done|].
  unfold account_settings. by rewrite Hpw, Hrole, Hmax.
Qed.

Lemma may_manage_settings u u' :
  account_settings u' = account_settings u → may_manage u' = may_manage u.
Proof.
  unfold account_settings, may_manage. by intros [= _ -> _].
Qed.

Lemma next_match_removed {A} (p : A → bool) (l : list A) :
  next_match p (List.filter (λ x, negb (p x)) l) = None.
Proof.
  induction l as [|x l IH]; simpl; [done|].
  destruct (p x) eqn:Hx; simpl; [done|]. by rewrite Hx.
Qed.

(** The body of [delete_app] when no entry's id reads as the requested
    text. *)
Lemma delete_app_no_match w req g app_id :
  form req !! "app_id_to_delete" = Some app_id → app_id ≠ "" →
  next_match (λ app, eqb_str (str_id app) app_id) (apps w) = None →
  delete_app w req g = (NotFound app_id, w, g).
Proof.
  intros Hid Hne Hnone. unfold delete_app, load_apps. cbv zeta.
  rewrite Hid. simpl. rewrite (proj2 (truthy_true app_id) Hne). simpl.
  rewrite Hnone. simpl. rewrite (next_match_None _ _ Hnone).
  by rewrite Nat.ltb_irrefl.
Qed.

Lemma delete_app_deleted_id w req g app_id w' g' :
  delete_app w req g = (Deleted app_id, w', g') → app_id ≠ "".
Proof.
  unfold delete_app. cbv zeta.
  destruct (form req !! "app_id_to_delete") as [id'|]; simpl; [|done].
  destruct (Text.truthy id') eqn:Ht; simpl; [|done].
  apply truthy_true in Ht.
  repeat (case_match; simpl; try done). by intros [= <- _ _].
Qed.

(** X11: the same delete request sent again after it succeeded is answered
    with NotFound and changes nothing. *)
Theorem delete_app_twice (w : stores) (req : request) (g : rng)
    (app_id : string) (w' : stores) (g' : rng) :
  delete_app_route w req g = (Deleted app_id, w', g') →
  delete_app_route w' req g' = (NotFound app_id, w', g').
Proof.
  intros Hroute.
  assert (∀ n, account_settings <$> users w' !! n
               = account_settings <$> users w !! n) as Hset.
  { intros n. pose proof (has_role_settings "manager" delete_app w req g n
                            (delete_app_settings w req g n)) as H.
    unfold delete_app_route in Hroute. by rewrite Hroute in H. }
  apply route_inv in Hroute as [Hdel (name & u & Hauth & Hmay)]; [|done].
  destruct (authenticated_settings w w' req name u Hset Hauth) as (u' & Hauth' & Hu').
  pose proof (delete_app_deleted_id _ _ _ _ _ _ Hdel) as Hne.
  apply delete_app_deleted in Hdel as (e0 & _ & Hid & ->).
  unfold delete_app_route. rewrite has_role_manager, Hauth'.
  rewrite (may_manage_settings _ _ Hu'), Hmay.
  apply delete_app_no_match; [done..|].
  rewrite (proj1 (decrement_owner_keeps _ _)). simpl.
  apply next_match_removed.
Qed.

Lemma delete_app_twice_witness :
  let req := post "manager_user" "app_manager_123"
               [("app_id_to_delete", "602750")] in
  (delete_app_route (delete_app_route sample_stores req stuck_rng).1.2 req
     (delete_app_route sample_stores req stuck_rng).2).1.1
  = NotFound "602750".
Proof.
  intros req.
  refine (f_equal (λ r, r.1.1)
            (delete_app_twice sample_stores req stuck_rng "602750"
               (delete_app_route sample_stores req stuck_rng).1.2
               (delete_app_route sample_stores req stuck_rng).2 _)).
  vm_compute. reflexivity.
Defined.

(** X12: for an authenticated manager or super user and a non-empty id
    text, the answer is NotFound, with nothing changed, exactly when no
    entry of the catalog has an id that reads as that text. *)
Theorem delete_app_not_found (w : stores) (req : request) (g : rng)
    (name : string) (u : user) (app_id : string) :
  authenticated w req = Some (name, u) →
  may_manage u = true →
  form req !! "app_id_to_delete" = Some app_id → app_id ≠ "" →
  (delete_app_route w req g).1.1 = NotFound app_id
  ↔ ∀ e, e ∈ apps w → str_id e ≠ app_id.
Proof.
  intros Hauth Hmay Hid Hne.
  unfold delete_app_route. rewrite has_role_manager, Hauth, Hmay.
  split.
  - intros Hres e He Heq.
    destruct (next_match (λ app, eqb_str (str_id app) app_id) (apps w))
      as [e0|] eqn:Hm.
    + pose proof (next_match_shortens _ _ _ Hm) as Hlt.
      apply Nat.ltb_lt in Hlt. revert Hres.
      unfold delete_app, load_apps. cbv zeta.
      rewrite Hid. simpl. rewrite (proj2 (truthy_true app_id) Hne). simpl.
      rewrite Hm, Hlt. by case_match.
    + pose proof (proj1 (next_match_none_iff _ _) Hm e He) as Hf.
      unfold eqb_str in Hf. by apply bool_decide_eq_false in Hf.
  - intros Hno. rewrite (delete_app_no_match w req g app_id); [done..|].
    apply next_match_none_iff. intros e He. unfold eqb_str.
    apply bool_decide_eq_false_2. by apply Hno.
Qed.

Lemma delete_app_not_found_witness :
  (delete_app_route sample_stores
     (post "manager_user" "app_manager_123" [("app_id_to_delete", "0602750")])
     stuck_rng).1.1
  = NotFound "0602750".
Proof.
  refine (proj2 (delete_app_not_found sample_stores
                   (post "manager_user" "app_manager_123"
                      [("app_id_to_delete", "0602750")]) stuck_rng
                   "manager_user"
                   {| password := "app_manager_123"; role := Some "manager";
                      max_apps := Some 10; owns_apps := Some 0 |} "0602750"
                   _ _ _ _) _).
  - vm_compute. reflexivity.
  - vm_compute. reflexivity.
  - vm_compute. reflexivity.
  - discriminate.
  - intros e He. vm_compute in He.
    apply elem_of_cons in He as [->|He]; [|by apply elem_of_nil in He].
    vm_compute. discriminate.
Defined.

(** ** The SN registry *)

Lemma save_sn_config_same w : save_sn_config (sn_owners w) w = w.
Proof. by destruct w. Qed.

Lemma add_sn_owner_assigned w req g sn_code sn_owner w' g' :
  add_sn_owner w req g = (SnAssigned sn_code sn_owner, w', g') →
  w' = save_sn_config (<[sn_code := sn_owner]> (sn_owners w)) w
  ∧ g' = g
  ∧ sn_code ≠ "" ∧ sn_owner ≠ ""
  ∧ (Text.strip <$> form req !! "sn_code") = Some sn_code
  ∧ (Text.strip <$> form req !! "sn_owner") = Some sn_owner
  ∧ ∃ u, users w !! sn_owner = Some u ∧ role u = Some "manager".
Proof.
  unfold add_sn_owner, load_sn_config, load_config.
  destruct (form req !! "sn_code") as [code_field|]; [|done].
  destruct (form req !! "sn_owner") as [owner_field|]; [|done].
  destruct (Text.truthy (Text.strip code_field)) eqn:Hc; [|done].
  destruct (Text.truthy (Text.strip owner_field)) eqn:Ho; [|done]. simpl.
  destruct (role_is "manager" (users w !! Text.strip owner_field)) eqn:Hrole;
    [|done]. simpl.
  intros [= <- <- <- <-]. apply truthy_true in Hc, Ho.
  repeat split; try done.
  unfold role_is in Hrole. apply bool_decide_eq_true in Hrole.
  destruct (users w !! Text.strip owner_field) as [u|]; [|done]. by exists u.
Qed.

Lemma super_route_inv (f : handler) w req g o w' g' :
  has_role "super" f w req g = (o, w', g') →
  succeeded o = true →
  f w req g = (o, w', g')
  ∧ ∃ name u, authenticated w req = Some (name, u) ∧ role u = Some "super".
Proof.
  rewrite has_role_any_outcome, has_role_any_super.
  destruct (authenticated w req) as [[name u]|]; [|by intros [= <- _ _]].
  case_bool_decide as Hrole; [|by intros [= <- _ _]].
  intros ? _. split; [done|]. by exists name, u.
Qed.

(** X13: a successful SN assignment, which only a super user obtains,
    binds the stripped, non-empty SN to the named account, which is a
    manager account of config.json; a former owner of that SN is replaced,
    every other SN keeps its owner, and the catalog and the accounts are
    not touched. *)
Theorem add_sn_owner_assigns (w : stores) (req : request) (g : rng)
    (sn_code sn_owner : string) (w' : stores) (g' : rng) :
  add_sn_owner_route w req g = (SnAssigned sn_code sn_owner, w', g') →
  sn_owners w' !! sn_code = Some sn_owner
  ∧ (∀ sn, sn ≠ sn_code → sn_owners w' !! sn = sn_owners w !! sn)
  ∧ apps w' = apps w ∧ users w' = users w
  ∧ sn_code ≠ "" ∧ Text.strip sn_code = sn_code
  ∧ (∃ u, users w !! sn_owner = Some u ∧ role u = Some "manager")
  ∧ ∃ name u, authenticated w req = Some (name, u) ∧ role u = Some "super".
Proof.
  intros Hroute. apply super_route_inv in Hroute as [Hadd Hsuper]; [|done].
  apply add_sn_owner_assigned in Hadd
    as (-> & _ & Hc & _ & Hcode & _ & Hmanager). simpl.
  split; [by rewrite lookup_insert_eq|].
  split; [intros sn Hne; by rewrite lookup_insert_ne|].
  repeat split; try done.
  destruct (form req !! "sn_code") as [code_field|]; [|done].
  injection Hcode as <-. apply strip_idempotent.
Qed.

Lemma add_sn_owner_assigns_witness :
  let req := post "super_admin" "123456"
               [("sn_code", " 114514 "); ("sn_owner", "second_manager")] in
  sn_owners (add_sn_owner_route sample_stores req stuck_rng).1.2 !! "114514"
  = Some "second_manager".
Proof.
  intros req.
  refine (proj1 (add_sn_owner_assigns sample_stores req stuck_rng
                   "114514" "second_manager"
                   (add_sn_owner_route sample_stores req stuck_rng).1.2
                   (add_sn_owner_route sample_stores req stuck_rng).2 _)).
  vm_compute. reflexivity.
Defined.

Lemma authenticated_same_users w w' req :
  users w' = users w → authenticated w' req = authenticated w req.
Proof. unfold authenticated. by intros ->. Qed.

(** X14: assign, then release.  After a successful assignment of an SN, a
    super user's release of that SN succeeds and leaves the registry as it
    was before the assignment without that SN; if the SN had no owner before,
    the stores are back where they started. *)
Theorem assign_then_release (w : stores) (req : request) (g : rng)
    (sn_code sn_owner : string) (w' : stores) (g' : rng)
    (req2 : request) (name : string) (u : user) :
  add_sn_owner_route w req g = (SnAssigned sn_code sn_owner, w', g') →
  authenticated w req2 = Some (name, u) → role u = Some "super" →
  form req2 !! "sn_code_to_delete" = Some sn_code →
  delete_sn_owner_route w' req2 g'
  = (SnReleased sn_code, save_sn_config (delete sn_code (sn_owners w)) w, g')
  ∧ (sn_owners w !! sn_code = None →
     (delete_sn_owner_route w' req2 g').1.2 = w).
Proof.
  intros Hroute Hauth Hrole Hform.
  apply super_route_inv in Hroute as [Hadd _]; [|done].
  apply add_sn_owner_assigned in Hadd as (-> & _ & _).
  assert (delete_sn_owner_route
            (save_sn_config (<[sn_code:=sn_owner]> (sn_owners w)) w) req2 g'
          = (SnReleased sn_code,
             save_sn_config (delete sn_code (sn_owners w)) w, g')) as Heq.
  { unfold delete_sn_owner_route.
    rewrite has_role_any_outcome, has_role_any_super.
    rewrite (authenticated_same_users w) by done.
    rewrite Hauth, (bool_decide_eq_true_2 _ Hrole).
    unfold delete_sn_owner, load_sn_config. rewrite Hform. simpl.
    rewrite lookup_insert_eq.
    rewrite bool_decide_eq_true_2 by (by eexists).
    unfold save_sn_config. simpl. by rewrite delete_insert_eq. }
  split; [done|]. intros Hnone. rewrite Heq. simpl.
  rewrite delete_id by done. apply save_sn_config_same.
Qed.

Lemma assign_then_release_witness :
  let req := post "super_admin" "123456"
               [("sn_code", "7"); ("sn_owner", "second_manager")] in
  let req2 := post "super_admin" "123456" [("sn_code_to_delete", "7")] in
  (delete_sn_owner_route (add_sn_owner_route sample_stores req stuck_rng).1.2
     req2 (add_sn_owner_route sample_stores req stuck_rng).2).1.2
  = sample_stores.
Proof.
  intros req req2.
  refine (proj2 (assign_then_release sample_stores req stuck_rng
                   "7" "second_manager"
                   (add_sn_owner_route sample_stores req stuck_rng).1.2
                   (add_sn_owner_route sample_stores req stuck_rng).2
                   req2 "super_admin"
                   {| password := "123456"; role := Some "super";
                      max_apps := None; owns_apps := None |} _ _ _ _) _).
  - vm_compute. reflexivity.
  - vm_compute. reflexivity.
  - reflexivity.
  - vm_compute. reflexivity.
  - vm_compute. reflexivity.
Defined.

(** Releasing an SN that has no owner is refused and changes nothing. *)
Lemma delete_sn_owner_unknown w req g sn_code :
  form req !! "sn_code_to_delete" = Some sn_code →
  sn_owners w !! sn_code = None →
  delete_sn_owner w req g = (SnNotFound (Some sn_code), w, g).
Proof.
  intros Hform Hnone. unfold delete_sn_owner, load_sn_config.
  rewrite Hform, Hnone. by rewrite bool_decide_eq_false_2 by (by intros [??]).
Qed.

(** X15: assign, then add.  Once a super user has assigned an SN to a
    manager, an add by any other authenticated user that names that SN
    (and passes the file and quota checks) is answered with SnConflict;
    an add by that manager naming only that SN is never answered so. *)
Theorem assign_then_add (w : stores) (req : request) (g : rng)
    (sn_code sn_owner : string) (w' : stores) (g' : rng)
    (req2 : request) (g2 : rng) (name : string) (u : user) :
  add_sn_owner_route w req g = (SnAssigned sn_code sn_owner, w', g') →
  authenticated w req2 = Some (name, u) →
  may_manage u = true →
  file_info_complete req2 = true →
  quota_ok u →
  (name ≠ sn_owner → sn_code ∈ requested_sn_list req2 →
   ∃ sn o, add_app_route w' req2 g2 = (SnConflict sn o, w', g2))
  ∧ (name = sn_owner → requested_sn_list req2 = [sn_code] →
     ∀ sn o, (add_app_route w' req2 g2).1.1 ≠ SnConflict sn o).
Proof.
  intros Hroute Hauth Hmay Hfile Hok.
  apply super_route_inv in Hroute as [Hadd _]; [|done].
  apply add_sn_owner_assigned in Hadd as (-> & _ & _ & Ho & _ & _ & _).
  set (w' := save_sn_config (<[sn_code:=sn_owner]> (sn_owners w)) w).
  assert (authenticated w' req2 = Some (name, u)) as Hauth'.
  { by rewrite (authenticated_same_users w). }
  destruct (authenticated_user _ _ _ _ Hauth') as [Hlog Hu].
  pose proof (quota_ok_passes w' req2 name u Hlog Hu Hok) as Hq.
  unfold add_app_route. rewrite has_role_manager, Hauth', Hmay.
  split.
  - intros Hne Hin.
    destruct (sn_conflict (sn_owners w') (get_logged_in_user req2)
                (requested_sn_list req2)) as [[sn o]|] eqn:Hc.
    + exists sn, o. by apply add_app_conflict_step.
    + destruct (sn_conflict_None _ _ _ Hc sn_code sn_owner Hin) as [?|Heq];
        [by apply lookup_insert_eq|done|].
      rewrite Hlog in Heq. congruence.
  - intros -> Hlist sn o Hres.
    apply add_app_conflict_source in Hres. rewrite Hlist, Hlog in Hres.
    simpl in Hres. rewrite lookup_insert_eq in Hres.
    rewrite (bool_decide_eq_true_2 (Some sn_owner = Some sn_owner)) in Hres by done.
    by rewrite andb_false_r in Hres.
Qed.

Lemma assign_then_add_witness :
  let req := post "super_admin" "123456"
               [("sn_code", "7"); ("sn_owner", "second_manager")] in
  let req2 := post "manager_user" "app_manager_123" (add_form "5" "7") in
  let w' := (add_sn_owner_route sample_stores req stuck_rng).1.2 in
  ∃ sn o, add_app_route w' req2 stuck_rng = (SnConflict sn o, w', stuck_rng).
Proof.
  intros req req2 w'.
  refine (proj1 (assign_then_add sample_stores req stuck_rng
                   "7" "second_manager" w'
                   (add_sn_owner_route sample_stores req stuck_rng).2
                   req2 stuck_rng "manager_user"
                   {| password := "app_manager_123"; role := Some "manager";
                      max_apps := Some 10; owns_apps := Some 0 |} _ _ _ _ _) _ _).
  - vm_compute. reflexivity.
  - vm_compute. reflexivity.
  - vm_compute. reflexivity.
  - vm_compute. reflexivity.
  - right. simpl. lia.
  - discriminate.
  - vm_compute. apply list_elem_of_here.
Defined.

(** ** Accounts *)

Lemma has_role_any_cases {R} (lr ad : R) required_role f w req g :
  (has_role_any lr ad required_role f w req g).1.2 = w
  ∨ has_role_any lr ad required_role f w req g = f w req g.
Proof.
  unfold has_role_any. repeat case_match; simpl; auto.
Qed.

Lemma account_route_inv (f : account_handler) w req g o w' g' :
  has_role_any AccountLoginRequired AccountAccessDenied "super" f w req g
  = (o, w', g') →
  account_succeeded o = true →
  f w req g = (o, w', g')
  ∧ ∃ name u, authenticated w req = Some (name, u) ∧ role u = Some "super".
Proof.
  rewrite has_role_any_super.
  destruct (authenticated w req) as [[name u]|]; [|by intros [= <- _ _]].
  case_bool_decide as Hrole; [|by intros [= <- _ _]].
  intros ? _. split; [done|]. by exists name, u.
Qed.

Lemma update_user_config_updated int username w req g n w' g' :
  update_user_config int username w req g = (UserUpdated n, w', g') →
  n = username
  ∧ ∃ u text m,
      users w !! username = Some u ∧ role u = Some "manager"
      ∧ form req !! "new_max_apps" = Some text ∧ int text = Some m
      ∧ default 0 (owns_apps u) ≤ m ∧ 0 ≤ m
      ∧ w' = save_config
               (<[username :=
                    set_max_apps m
                      (if truthy_opt (form req !! "new_password")
                       then set_password (default "" (form req !! "new_password")) u
                       else u)]> (users w)) w.
Proof.
  unfold update_user_config, load_config. cbv zeta.
  destruct (users w !! username) as [u|] eqn:Hu; [|done].
  case_bool_decide as Hrole; simpl; [|done].
  destruct (form req !! "new_max_apps") as [text|]; [|done].
  destruct (int text) as [m|] eqn:Hm; [|done].
  assert (owns_apps (if truthy_opt (form req !! "new_password")
                     then set_password (default "" (form req !! "new_password")) u
                     else u) = owns_apps u) as -> by (by case_match).
  destruct (m <? default 0 (owns_apps u)) eqn:Hlow; [done|].
  destruct (m <? 0) eqn:Hneg; [done|].
  intros [= <- <- _]. split; [done|]. exists u, text, m.
  repeat split; try done; lia.
Qed.

(** X16: when a limit update succeeds, which only a super user obtains,
    the account is a manager account and its new max_apps is a number that
    is neither negative nor below its owns_apps (0 if lacking); the role
    and the counter are kept, the password is replaced only by a non-empty
    new one, and nothing else in the stores changes. *)
Theorem update_user_config_limit (int : string → option Z) (username : string)
    (w : stores) (req : request) (g : rng) (n : string) (w' : stores) (g' : rng) :
  update_user_config_route int username w req g = (UserUpdated n, w', g') →
  (∃ requester ru, authenticated w req = Some (requester, ru)
                   ∧ role ru = Some "super")
  ∧ ∃ u u' m,
    users w !! username = Some u ∧ users w' !! username = Some u'
    ∧ role u = Some "manager" ∧ role u' = Some "manager"
    ∧ owns_apps u' = owns_apps u
    ∧ max_apps u' = Some m ∧ 0 ≤ m ∧ default 0 (owns_apps u') ≤ m
    ∧ password u' = (if truthy_opt (form req !! "new_password")
                     then default "" (form req !! "new_password")
                     else password u)
    ∧ (∀ other, other ≠ username → users w' !! other = users w !! other)
    ∧ apps w' = apps w ∧ sn_owners w' = sn_owners w.
Proof.
  intros Hroute. apply account_route_inv in Hroute as [Hupd Hsuper]; [|done].
  split; [exact Hsuper|].
  apply update_user_config_updated in Hupd
    as (_ & u & text & m & Hu & Hrole & _ & _ & Hown & Hm & ->).
  eexists u, _, m. simpl. rewrite lookup_insert_eq.
  split; [done|]. split; [done|].
  destruct (truthy_opt (form req !! "new_password")); simpl;
    repeat split; try done; intros other Hne; by rewrite lookup_insert_ne.
Qed.

Lemma update_user_config_limit_witness :
  let req := post "super_admin" "123456"
               [("new_password", ""); ("new_max_apps", "2")] in
  (∃ requester ru, authenticated sample_stores req = Some (requester, ru)
                   ∧ role ru = Some "super")
  ∧ ∃ u u' m,
    users sample_stores !! "second_manager" = Some u
    ∧ users (update_user_config_route digits_int "second_manager"
               sample_stores req stuck_rng).1.2 !! "second_manager" = Some u'
    ∧ max_apps u' = Some m ∧ default 0 (owns_apps u') ≤ m.
Proof.
  intros req.
  destruct (update_user_config_limit digits_int "second_manager"
              sample_stores req stuck_rng "second_manager"
              (update_user_config_route digits_int "second_manager"
                 sample_stores req stuck_rng).1.2
              (update_user_config_route digits_int "second_manager"
                 sample_stores req stuck_rng).2)
    as (Hsuper & u & u' & m & Hu & Hu' & _ & _ & _ & Hm & _ & Hle & _).
  - vm_compute. reflexivity.
  - split; [exact Hsuper|]. exists u, u', m. repeat split; assumption.
Defined.

Lemma add_new_manager_added int w req g n m w' g' :
  add_new_manager int w req g = (ManagerAdded n m, w', g') →
  form req !! "new_username" = Some n ∧ n ≠ ""
  ∧ users w !! n = None
  ∧ truthy_opt (form req !! "new_password") = true
  ∧ 0 ≤ m
  ∧ w' = save_config
           (<[n := {| password := default "" (form req !! "new_password");
                      role := Some "manager"; max_apps := Some m;
                      owns_apps := Some 0 |}]> (users w)) w.
Proof.
  unfold add_new_manager, load_config. cbv zeta.
  destruct (form req !! "new_username") as [name|]; simpl; [|done].
  case_bool_decide as Htaken; [done|].
  destruct (Text.truthy name) eqn:Hn; simpl; [|done].
  destruct (truthy_opt (form req !! "new_password")) eqn:Hp; simpl; [|done].
  destruct (from_option int (Some 10) (form req !! "new_max_apps")) as [m'|];
    [|done].
  destruct (m' <? 0) eqn:Hneg; [done|].
  intros [= <- <- <- _]. apply truthy_true in Hn.
  repeat split; try done; [|lia].
  destruct (users w !! name) eqn:Hu; [|done]. destruct Htaken. by eexists.
Qed.



Lemma update_user_config_failed int username w req g :
  account_succeeded (update_user_config int username w req g).1.1 = false →
  (update_user_config int username w req g).1.2 = w.
Proof.
  unfold update_user_config. repeat (case_match; simpl; try done).
Qed.

Lemma add_new_manager_failed int w req g :
  account_succeeded (add_new_manager int w req g).1.1 = false →
  (add_new_manager int w req g).1.2 = w.
Proof.
  unfold add_new_manager. repeat (case_match; simpl; try done).
Qed.

(** X18: an account request that does not report success changes nothing;
    in particular a limit update that is refused (limit below the counter,
    negative or not a number, unknown or non-manager account) does not
    change the password either, even when a new one was sent along. *)
Theorem account_routes_failed (int : string → option Z) (username : string)
    (w : stores) (req : request) (g : rng) :
  (account_succeeded (update_user_config_route int username w req g).1.1 = false →
   (update_user_config_route int username w req g).1.2 = w)
  ∧ (account_succeeded (add_new_manager_route int w req g).1.1 = false →
     (add_new_manager_route int w req g).1.2 = w).
Proof.
  split; intros Hfail.
  - unfold update_user_config_route in *.
    destruct (has_role_any_cases AccountLoginRequired AccountAccessDenied "super"
                (update_user_config int username) w req g) as [H|H]; [done|].
    rewrite H in *. by apply update_user_config_failed.
  - unfold add_new_manager_route in *.
    destruct (has_role_any_cases AccountLoginRequired AccountAccessDenied "super"
                (add_new_manager int) w req g) as [H|H]; [done|].
    rewrite H in *. by apply add_new_manager_failed.
Qed.

Lemma account_routes_failed_witness :
  (update_user_config_route digits_int "second_manager" sample_stores
     (post "super_admin" "123456"
        [("new_password", "changed"); ("new_max_apps", "1")]) stuck_rng).1.2
  = sample_stores
  ∧ (add_new_manager_route digits_int sample_stores
       (post "super_admin" "123456"
          [("new_username", "manager_user"); ("new_password", "x")])
       stuck_rng).1.2
    = sample_stores.
Proof.
  split.
  - apply (proj1 (account_routes_failed digits_int "second_manager" sample_stores
                    (post "super_admin" "123456"
                       [("new_password", "changed"); ("new_max_apps", "1")])
                    stuck_rng)).
    vm_compute. reflexivity.
  - apply (proj2 (account_routes_failed digits_int "" sample_stores
                    (post "super_admin" "123456"
                       [("new_username", "manager_user"); ("new_password", "x")])
                    stuck_rng)).
    vm_compute. reflexivity.
Defined.

(** ** Invariants of the stores *)

Lemma step_ok_refl w : step_ok w w.
Proof.
  split; [|split; [|done]].
  - intros name u Hu. by exists u.
  - intros sn o Hsn. by left.
Qed.

Lemma settings_keeps_roles w w' :
  (∀ n, account_settings <$> users w' !! n = account_settings <$> users w !! n) →
  keeps_roles w w'.
Proof.
  intros Hset name u Hu. specialize (Hset name). rewrite Hu in Hset.
  destruct (users w' !! name) as [u'|]; [|done].
  exists u'. split; [done|]. simpl in Hset. by injection Hset as _ -> _.
Qed.

Lemma same_registry_registers w w' :
  sn_owners w' = sn_owners w → registers_managers w w'.
Proof. intros Heq sn o. rewrite Heq. by left. Qed.

Lemma same_users_keeps w w' : users w' = users w → keeps_roles w w'.
Proof. intros Heq name u Hu. exists u. by rewrite Heq. Qed.

Lemma append_and_count_quota w owner_user user_data e :
  all_within_quota w →
  owner_user ≫= (users w !!.) = user_data →
  role_is "manager" user_data
  && (default 9999 (user_data ≫= max_apps) <=? default 0 (user_data ≫= owns_apps))
  = false →
  all_within_quota
    (append_and_count w owner_user user_data (default 0 (user_data ≫= owns_apps)) e).
Proof.
  intros Hall Hdata Hq. unfold append_and_count, load_config.
  destruct (role_is "manager" user_data) eqn:Hrole; [|exact Hall].
  destruct owner_user as [o|]; [|exact Hall].
  destruct user_data as [u|]; [|exact Hall].
  simpl in *. intros name u'. simpl. destruct (decide (o = name)) as [->|Hne].
  - rewrite lookup_insert_eq. intros [= <-].
    destruct (Hall name u Hdata) as [H0 Hle]. unfold within_quota. simpl. lia.
  - rewrite lookup_insert_ne by done. apply Hall.
Qed.

Lemma add_app_quota_kept w req g :
  all_within_quota w → all_within_quota (add_app w req g).1.2.
Proof.
  intros Hall. unfold add_app, load_config. cbv zeta.
  repeat (case_match; simpl; try done);
    by apply append_and_count_quota.
Qed.

Lemma decrement_owner_quota app_owner w1 :
  all_within_quota w1 → all_within_quota (decrement_owner app_owner w1).
Proof.
  intros Hall name u' Hu'.
  apply decrement_owner_users in Hu' as [Hu|(u & _ & Hu & _ & ->)];
    [by apply (Hall name)|].
  destruct (Hall name u Hu) as [H0 Hle]. unfold within_quota. simpl.
  destruct (owns_apps u); simpl in *; lia.
Qed.

Lemma delete_app_quota_kept w req g :
  all_within_quota w → all_within_quota (delete_app w req g).1.2.
Proof.
  intros Hall. unfold delete_app. cbv zeta.
  repeat (case_match; simpl; try done). by apply decrement_owner_quota.
Qed.

Lemma delete_app_sn_owners w req g : sn_owners (delete_app w req g).1.2 = sn_owners w.
Proof.
  unfold delete_app. cbv zeta.
  repeat (case_match; simpl; try done).
  by rewrite (proj2 (decrement_owner_keeps _ _)).
Qed.

Lemma add_app_step_ok w req g : step_ok w (add_app w req g).1.2.
Proof.
  split; [|split].
  - apply settings_keeps_roles. intros n. apply add_app_settings.
  - apply same_registry_registers, add_app_sn_owners.
  - apply add_app_quota_kept.
Qed.

Lemma delete_app_step_ok w req g : step_ok w (delete_app w req g).1.2.
Proof.
  split; [|split].
  - apply settings_keeps_roles. intros n. apply delete_app_settings.
  - apply same_registry_registers, delete_app_sn_owners.
  - apply delete_app_quota_kept.
Qed.

Lemma add_sn_owner_step_ok w req g : step_ok w (add_sn_owner w req g).1.2.
Proof.
  destruct (add_sn_owner w req g) as [[o w'] g'] eqn:Hadd. simpl.
  destruct o; try (assert (w' = w) as ->;
    [revert Hadd; unfold add_sn_owner; repeat case_match; congruence
    |apply step_ok_refl]).
  apply add_sn_owner_assigned in Hadd as (-> & _ & _ & Ho & _ & _ & Hmanager).
  split; [|split; [|done]].
  - by apply same_users_keeps.
  - intros sn o. simpl. destruct (decide (sn_code = sn)) as [->|Hne].
    + rewrite lookup_insert_eq. intros [= <-]. by right.
    + rewrite lookup_insert_ne by done. by left.
Qed.

Lemma delete_sn_owner_step_ok w req g : step_ok w (delete_sn_owner w req g).1.2.
Proof.
  unfold delete_sn_owner, load_sn_config.
  repeat case_match; simpl; try apply step_ok_refl.
  split; [|split; [|done]].
  - by apply same_users_keeps.
  - intros sn o. simpl. intros [_ Hsn]%lookup_delete_Some. by left.
Qed.

Lemma update_user_config_step_ok int username w req g :
  step_ok w (update_user_config int username w req g).1.2.
Proof.
  destruct (update_user_config int username w req g) as [[o w'] g'] eqn:Hupd.
  simpl. destruct (account_succeeded o) eqn:Ho.
  - destruct o; try done.
    + apply update_user_config_updated in Hupd
        as (_ & u & text & m & Hu & Hrole & _ & _ & Hown & Hm & ->).
      split; [|split].
      * intros name u0 Hu0. simpl. destruct (decide (username = name)) as [->|Hne].
        -- rewrite lookup_insert_eq. eexists. split; [done|].
           rewrite Hu in Hu0. injection Hu0 as <-. simpl. by case_match.
        -- rewrite lookup_insert_ne by done. by exists u0.
      * by apply same_registry_registers.
      * intros Hall name u0. simpl. destruct (decide (username = name)) as [->|Hne].
        -- rewrite lookup_insert_eq. intros [= <-]. unfold within_quota. simpl.
           split; [done|]. by case_match.
        -- rewrite lookup_insert_ne by done. apply Hall.
    + exfalso. revert Hupd. unfold update_user_config.
      repeat case_match; congruence.
  - pose proof (update_user_config_failed int username w req g) as Hf.
    rewrite Hupd in Hf. simpl in Hf. rewrite (Hf Ho). apply step_ok_refl.
Qed.

Lemma add_new_manager_step_ok int w req g :
  step_ok w (add_new_manager int w req g).1.2.
Proof.
  destruct (add_new_manager int w req g) as [[o w'] g'] eqn:Hadd.
  simpl. destruct (account_succeeded o) eqn:Ho.
  - destruct o; try done.
    + exfalso. revert Hadd. unfold add_new_manager.
      repeat case_match; congruence.
    + apply add_new_manager_added in Hadd as (_ & Hn & Hnone & _ & Hm & ->).
      split; [|split].
      * intros name u0 Hu0. simpl. exists u0. split; [|done].
        rewrite lookup_insert_ne; [done|]. intros ->. congruence.
      * by apply same_registry_registers.
      * intros Hall name u0. simpl.
        destruct (decide (new_username = name)) as [->|Hne].
        -- rewrite lookup_insert_eq. intros [= <-]. unfold within_quota. simpl. lia.
        -- rewrite lookup_insert_ne by done. apply Hall.
  - pose proof (add_new_manager_failed int w req g) as Hf.
    rewrite Hadd in Hf. simpl in Hf. rewrite (Hf Ho). apply step_ok_refl.
Qed.

Lemma perform_step_ok int a w req g : step_ok w (perform int a w req g).1.
Proof.
  destruct a; simpl.
  - destruct (has_role_cases "manager" add_app w req g) as [H|H];
      unfold add_app_route; destruct (has_role "manager" add_app w req g)
        as [[o w'] g'] eqn:Hr; simpl in *.
    + subst. apply step_ok_refl.
    + pose proof (add_app_step_ok w req g) as Hs. by rewrite <- H in Hs.
  - destruct (has_role_cases "manager" delete_app w req g) as [H|H];
      unfold delete_app_route; destruct (has_role "manager" delete_app w req g)
        as [[o w'] g'] eqn:Hr; simpl in *.
    + subst. apply step_ok_refl.
    + pose proof (delete_app_step_ok w req g) as Hs. by rewrite <- H in Hs.
  - destruct (has_role_cases "super" add_sn_owner w req g) as [H|H];
      unfold add_sn_owner_route; destruct (has_role "super" add_sn_owner w req g)
        as [[o w'] g'] eqn:Hr; simpl in *.
    + subst. apply step_ok_refl.
    + pose proof (add_sn_owner_step_ok w req g) as Hs. by rewrite <- H in Hs.
  - destruct (has_role_cases "super" delete_sn_owner w req g) as [H|H];
      unfold delete_sn_owner_route;
      destruct (has_role "super" delete_sn_owner w req g)
        as [[o w'] g'] eqn:Hr; simpl in *.
    + subst. apply step_ok_refl.
    + pose proof (delete_sn_owner_step_ok w req g) as Hs. by rewrite <- H in Hs.
  - destruct (has_role_any_cases AccountLoginRequired AccountAccessDenied "super"
                (update_user_config int username) w req g) as [H|H];
      unfold update_user_config_route;
      destruct (has_role_any AccountLoginRequired AccountAccessDenied "super"
                  (update_user_config int username) w req g)
        as [[o w'] g'] eqn:Hr; simpl in *.
    + subst. apply step_ok_refl.
    + pose proof (update_user_config_step_ok int username w req g) as Hs.
      by rewrite <- H in Hs.
  - destruct (has_role_any_cases AccountLoginRequired AccountAccessDenied "super"
                (add_new_manager int) w req g) as [H|H];
      unfold add_new_manager_route;
      destruct (has_role_any AccountLoginRequired AccountAccessDenied "super"
                  (add_new_manager int) w req g)
        as [[o w'] g'] eqn:Hr; simpl in *.
    + subst. apply step_ok_refl.
    + pose proof (add_new_manager_step_ok int w req g) as Hs.
      by rewrite <- H in Hs.
Qed.

Lemma keeps_roles_trans w1 w2 w3 :
  keeps_roles w1 w2 → keeps_roles w2 w3 → keeps_roles w1 w3.
Proof.
  intros H12 H23 name u Hu.
  destruct (H12 name u Hu) as (u2 & Hu2 & Hr2).
  destruct (H23 name u2 Hu2) as (u3 & Hu3 & Hr3).
  exists u3. split; [done|]. congruence.
Qed.

(** X19: whatever requests are sent to the six writing routes, in whatever
    order and by whomever, no account disappears and no account's role
    changes: a manager account never becomes a super account. *)
Theorem roles_never_change (int : string → option Z)
    (todo : list (action * request)) (w : stores) (g : rng) :
  keeps_roles w (perform_all int todo w g).
Proof.
  revert w g. induction todo as [|[a req] todo IH]; intros w g; simpl.
  - intros name u Hu. by exists u.
  - pose proof (perform_step_ok int a w req g) as (Hroles & _ & _).
    destruct (perform int a w req g) as [w1 g1]. simpl in Hroles.
    by eapply keeps_roles_trans.
Qed.

Lemma step_registry w w' :
  step_ok w w' →
  owners_are_managers w ∧ named_owners (sn_owners w) →
  owners_are_managers w' ∧ named_owners (sn_owners w').
Proof.
  intros (Hroles & Hreg & _) [Hman Hnamed]. split.
  - intros sn o Hsn. destruct (Hreg sn o Hsn) as [Hold|(_ & u & Hu & Hrole)].
    + destruct (Hman sn o Hold) as (u & Hu & Hrole).
      destruct (Hroles o u Hu) as (u' & Hu' & Hr'). exists u'. split; [done|].
      congruence.
    + destruct (Hroles o u Hu) as (u' & Hu' & Hr'). exists u'. split; [done|].
      congruence.
  - intros sn o Hsn. destruct (Hreg sn o Hsn) as [Hold|(Hne & _)]; [|done].
    by apply (Hnamed sn).
Qed.

(** X20: if every registered SN belongs to a manager account with a
    non-empty name, this stays so whatever requests are sent to the six
    writing routes. *)
Theorem registry_invariant (int : string → option Z)
    (todo : list (action * request)) (w : stores) (g : rng) :
  owners_are_managers w → named_owners (sn_owners w) →
  owners_are_managers (perform_all int todo w g)
  ∧ named_owners (sn_owners (perform_all int todo w g)).
Proof.
  revert w g. induction todo as [|[a req] todo IH]; intros w g Hman Hnamed; simpl.
  - done.
  - pose proof (perform_step_ok int a w req g) as Hstep.
    destruct (perform int a w req g) as [w1 g1]. simpl in Hstep.
    destruct (step_registry w w1 Hstep (conj Hman Hnamed)) as [Hman1 Hnamed1].
    by apply IH.
Qed.

(** X21: if every account's owns_apps is within its max_apps and no limit
    is negative (a lacking limit read as 9999, a lacking counter as 0),
    this stays so whatever requests are sent to the six writing routes. *)
Theorem quota_invariant (int : string → option Z)
    (todo : list (action * request)) (w : stores) (g : rng) :
  all_within_quota w → all_within_quota (perform_all int todo w g).
Proof.
  revert w g. induction todo as [|[a req] todo IH]; intros w g Hall; simpl.
  - done.
  - pose proof (perform_step_ok int a w req g) as (_ & _ & Hq).
    destruct (perform int a w req g) as [w1 g1]. simpl in Hq.
    apply IH. by apply Hq.
Qed.

Lemma sample_owners_are_managers : owners_are_managers sample_stores.
Proof.
  intros sn o Hsn. simpl in Hsn. unfold sample_sn_owners in Hsn.
  apply lookup_insert_Some in Hsn as [[_ <-]|[_ Hsn]].
  - eexists. split; [vm_compute; reflexivity|reflexivity].
  - by rewrite lookup_empty in Hsn.
Defined.

Lemma sample_named_owners : named_owners (sn_owners sample_stores).
Proof.
  intros sn o Hsn. simpl in Hsn. unfold sample_sn_owners in Hsn.
  apply lookup_insert_Some in Hsn as [[_ <-]|[_ Hsn]].
  - discriminate.
  - by rewrite lookup_empty in Hsn.
Defined.

Lemma sample_within_quota : all_within_quota sample_stores.
Proof.
  intros name u Hu. simpl in Hu. unfold sample_users in Hu.
  apply lookup_insert_Some in Hu as [[_ <-]|[_ Hu]];
    [|apply lookup_insert_Some in Hu as [[_ <-]|[_ Hu]];
      [|apply lookup_insert_Some in Hu as [[_ <-]|[_ Hu]];
        [|by rewrite lookup_empty in Hu]]].
  all: unfold within_quota; simpl; lia.
Defined.

Lemma registry_invariant_witness :
  owners_are_managers
    (perform_all digits_int
       [(AddSnOwner, post "super_admin" "123456"
                       [("sn_code", "7"); ("sn_owner", "second_manager")]);
        (UpdateUser "second_manager",
         post "super_admin" "123456" [("new_max_apps", "5")]);
        (DeleteSnOwner, post "super_admin" "123456"
                          [("sn_code_to_delete", "114514")])]
       sample_stores stuck_rng).
Proof.
  apply (registry_invariant digits_int _ sample_stores stuck_rng
           sample_owners_are_managers sample_named_owners).
Defined.

Lemma quota_invariant_witness :
  all_within_quota
    (perform_all digits_int
       [(AddApp, post "second_manager" "pw2" (add_form "9" ""));
        (DeleteApp, post "manager_user" "app_manager_123"
                      [("app_id_to_delete", "602750")]);
        (UpdateUser "manager_user",
         post "super_admin" "123456" [("new_max_apps", "0")]);
        (AddApp, post "manager_user" "app_manager_123" (add_form "9" ""))]
       sample_stores stuck_rng).
Proof.
  apply (quota_invariant digits_int _ sample_stores stuck_rng sample_within_quota).
Defined.

(** ** The search route *)

Lemma api_response_search_ids int data_list g items i item :
  (api_response_search int data_list g).1 = Some items →
  items !! i = Some item →
  ∃ e, data_list !! i = Some e
       ∧ renders int e = true
       ∧ s_downloadUrl item = get_or "downloadUrl" e_downloadUrl e ""
       ∧ s_summary item = get_or "desc" e_desc e ""
       ∧ s_icon item = get_or "iconUrl" e_iconUrl e DEFAULT_ICON_URL
       ∧ s_size item = size_bytes int e
       ∧ (e_id e = Some (s_id item)
          ∨ (e_id e = None ∧ 100000 ≤ s_id item ≤ 999999)).
Proof.
  intros [Hlen Hitems]%api_response_search_Some Hitem.
  destruct (lookup_lt_is_Some_2 data_list i) as [e He].
  { rewrite <- Hlen. by eapply lookup_lt_Some. }
  destruct (Hitems i e He) as [Hr Hi]. rewrite Hi in Hitem.
  injection Hitem as <-. exists e. simpl. repeat split; try done.
  destruct (e_id e) as [n|]; simpl; [by left|]. right. split; [done|].
  pose proof (Z.mod_pos_bound (g (i + 0)%nat) (999999 - 100000 + 1)). lia.
Qed.

(** X22: a listing is produced exactly when every entry it is given
    renders; it then has one item per entry, in order.  Every id in it is
    the id of the entry at that position or, for an entry without id, a
    number from 100000 to 999999; the link, summary and icon are the
    entry's, their default for a lacking key and null for a key that holds
    null; the size is the converted size text; and the listing uses up one
    draw of the generator per entry, with or without id. *)
Theorem api_response_search_items (int : string → option Z)
    (data_list : list app_entry) (g : rng) :
  (is_Some (api_response_search int data_list g).1
   ↔ ∀ e, e ∈ data_list → renders int e = true)
  ∧ ∀ items,
      (api_response_search int data_list g).1 = Some items →
      length items = length data_list
      ∧ (∀ i item,
           items !! i = Some item →
           ∃ e, data_list !! i = Some e
                ∧ s_downloadUrl item = get_or "downloadUrl" e_downloadUrl e ""
                ∧ s_summary item = get_or "desc" e_desc e ""
                ∧ s_icon item = get_or "iconUrl" e_iconUrl e DEFAULT_ICON_URL
                ∧ s_size item = size_bytes int e
                ∧ (e_id e = Some (s_id item)
                   ∨ (e_id e = None ∧ 100000 ≤ s_id item ≤ 999999)))
      ∧ ∀ n, (api_response_search int data_list g).2 n
             = g (length data_list + n)%nat.
Proof.
  split; [apply api_response_search_is_Some|].
  intros items Hitems. split; [|split].
  - by apply api_response_search_Some in Hitems as [Hlen _].
  - intros i item Hitem.
    destruct (api_response_search_ids _ _ _ _ _ _ Hitems Hitem)
      as (e & He & _ & H). by exists e.
  - intros n. by eapply api_response_search_rng.
Qed.

Lemma api_response_search_items_witness :
  length [simplified (mapped digits_int (sample_app 7 "manager_user" None) 602750)]
  = length [sample_app 7 "manager_user" None]
  ∧ ∃ e, [sample_app 7 "manager_user" None] !! 0%nat = Some e
         ∧ (e_id e = Some 7 ∨ (e_id e = None ∧ 100000 ≤ 7 ≤ 999999)).
Proof.
  destruct (proj2 (api_response_search_items digits_int
                     [sample_app 7 "manager_user" None] stuck_rng)
              [simplified (mapped digits_int (sample_app 7 "manager_user" None)
                             602750)])
    as (Hlen & Hitems & _).
  - vm_compute. reflexivity.
  - split; [exact Hlen|].
    destruct (Hitems 0%nat
                (simplified (mapped digits_int (sample_app 7 "manager_user" None)
                               602750)))
      as (e & He & _ & _ & _ & _ & Hid).
    + reflexivity.
    + exists e. split; assumption.
Defined.

(** An entry whose id key holds null makes the listing raise, after the
    draw; one without the key gets the drawn number. *)
Example api_response_search_null_id :
  let e := sample_app 7 "manager_user" None in
  let no_id :=
    {| e_appId := e_appId e; e_id := None; e_name := e_name e;
       e_appName := e_appName e; e_packageName := e_packageName e;
       e_downloadUrl := e_downloadUrl e; e_iconUrl := e_iconUrl e;
       e_size := e_size e; e_md5 := e_md5 e; e_desc := e_desc e;
       e_updateTime := e_updateTime e; e_owner := e_owner e;
       e_allowedSn := e_allowedSn e; e_rest := e_rest e |} in
  let null_id :=
    {| e_appId := e_appId e; e_id := None; e_name := e_name e;
       e_appName := e_appName e; e_packageName := e_packageName e;
       e_downloadUrl := e_downloadUrl e; e_iconUrl := e_iconUrl e;
       e_size := e_size e; e_md5 := e_md5 e; e_desc := e_desc e;
       e_updateTime := e_updateTime e; e_owner := e_owner e;
       e_allowedSn := e_allowedSn e; e_rest := "id" :: e_rest e |} in
  (λ items : list search_item, s_id <$> items) <$> (api_response_search digits_int [no_id] stuck_rng).1
  = Some [602750]
  ∧ (api_response_search digits_int [null_id] stuck_rng).1 = None.
Proof. vm_compute. split; reflexivity. Qed.

Lemma filter_by_keyword_sublist search_lower filtered_apps results :
  filter_by_keyword search_lower filtered_apps = Some results →
  results `sublist_of` filtered_apps.
Proof.
  revert results. induction filtered_apps as [|a l IH]; intros results; simpl.
  - by intros [= <-].
  - destruct (keyword_match search_lower a) as [b|]; [|done].
    destruct (filter_by_keyword search_lower l) as [r|]; [|done].
    simpl. intros [= <-]. specialize (IH r eq_refl).
    destruct b; [by apply sublist_skip|by apply sublist_cons].
Qed.

Lemma search_results_sublist w req results :
  search_results w req = Some results →
  results `sublist_of` filter_apps_by_sn (apps w) (default "" (args req !! "sn")).
Proof.
  unfold search_results, load_apps. cbv zeta.
  rewrite !filter_apps_by_sn_filter, strip_idempotent.
  case_match.
  - by intros [= <-].
  - apply filter_by_keyword_sublist.
Qed.

(** X23: the search route never shows what the filter hides.  Every item
    of its answer renders, position by position, an entry of the catalog
    that the visibility rule admits for the (stripped) SN of the request;
    the keyword only narrows the choice. *)
Theorem list_and_search_apps_visible (int : string → option Z) (w : stores)
    (req : request) (g : rng) (items : list search_item) (i : nat)
    (item : search_item) :
  (list_and_search_apps int w req g).1 = Some items →
  items !! i = Some item →
  ∃ results e,
    search_results w req = Some results
    ∧ results !! i = Some e
    ∧ e ∈ filter_apps_by_sn (apps w) (default "" (args req !! "sn"))
    ∧ e ∈ apps w
    ∧ spec_visible (Text.strip (default "" (args req !! "sn"))) e
    ∧ s_downloadUrl item = get_or "downloadUrl" e_downloadUrl e ""
    ∧ (e_id e = Some (s_id item)
       ∨ (e_id e = None ∧ 100000 ≤ s_id item ≤ 999999)).
Proof.
  unfold list_and_search_apps.
  destruct (search_results w req) as [results|] eqn:Hres; [|done].
  intros Hitems Hitem.
  destruct (api_response_search_ids _ _ _ _ _ _ Hitems Hitem)
    as (e & He & _ & Hurl & _ & _ & _ & Hid).
  exists results, e. split; [done|]. split; [done|].
  assert (e ∈ filter_apps_by_sn (apps w) (default "" (args req !! "sn"))) as Hin.
  { eapply sublist_subseteq; [by apply search_results_sublist|].
    by eapply list_elem_of_lookup_2. }
  split; [done|].
  rewrite filter_apps_by_sn_filter in Hin.
  apply list_elem_of_In, filter_In in Hin as [Hin Hvis].
  split; [by apply list_elem_of_In|]. split; [by apply visible_spec|]. done.
Qed.

Lemma list_and_search_apps_visible_witness :
  let w := save_apps [sample_app 1 "manager_user" (Some ["S1"]);
                      sample_app 2 "manager_user" (Some [])] sample_stores in
  let req := query [("sn", "S2"); ("keyword", "mt")] in
  ∃ results e, search_results w req = Some results
               ∧ results !! 0%nat = Some e
               ∧ spec_visible "S2" e.
Proof.
  intros w req.
  destruct (list_and_search_apps_visible digits_int w req stuck_rng
              [simplified (mapped digits_int (sample_app 2 "manager_user" (Some []))
                             602750)]
              0%nat
              (simplified (mapped digits_int (sample_app 2 "manager_user" (Some []))
                             602750)))
    as (results & e & Hres & He & _ & _ & Hvis & _).
  - vm_compute. reflexivity.
  - reflexivity.
  - exists results, e. split; [exact Hres|]. split; [exact He|exact Hvis].
Defined.

Lemma lower_char_isspace c : Text.isspace (lower_char c) = Text.isspace c.
Proof. destruct c as [[] [] [] [] [] [] [] []]; reflexivity. Qed.

Lemma lower_lstrip s : Text.lstrip (lower s) = lower (Text.lstrip s).
Proof.
  induction s as [|c s IH]; simpl; [done|].
  rewrite lower_char_isspace. by destruct (Text.isspace c).
Qed.

Lemma lower_rstrip s : Text.rstrip (lower s) = lower (Text.rstrip s).
Proof.
  induction s as [|c s IH]; simpl; [done|].
  rewrite IH, lower_char_isspace.
  destruct (Text.rstrip s); simpl; [by destruct (Text.isspace c)|done].
Qed.

Lemma lower_strip s : Text.strip (lower s) = lower (Text.strip s).
Proof. unfold Text.strip. by rewrite lower_lstrip, lower_rstrip. Qed.

Lemma lower_truthy s : Text.truthy (lower s) = Text.truthy s.
Proof. by destruct s. Qed.

(** X24: the keyword is matched without regard to case: two requests with
    the same SN whose keywords are equal up to the case of their letters
    get the same entries. *)
Theorem search_ignores_case (w : stores) (req1 req2 : request) :
  args req1 !! "sn" = args req2 !! "sn" →
  lower (default "" (args req1 !! "keyword"))
  = lower (default "" (args req2 !! "keyword")) →
  search_results w req1 = search_results w req2.
Proof.
  intros Hsn Hkey. unfold search_results. cbv zeta. rewrite Hsn.
  assert (lower (Text.strip (default "" (args req1 !! "keyword")))
          = lower (Text.strip (default "" (args req2 !! "keyword")))) as Hlow.
  { by rewrite <- !lower_strip, Hkey. }
  rewrite Hlow.
  rewrite <- (lower_truthy (Text.strip (default "" (args req1 !! "keyword")))).
  by rewrite Hlow, lower_truthy.
Qed.

Lemma search_ignores_case_witness :
  search_results sample_stores (query [("keyword", "Com.MT")])
  = search_results sample_stores (query [("keyword", "com.mt")]).
Proof.
  apply (search_ignores_case sample_stores
           (query [("keyword", "Com.MT")]) (query [("keyword", "com.mt")]));
    vm_compute; reflexivity.
Defined.

Example search_keyword_ex :
  search_results sample_stores (query [("keyword", " MANAGER ")])
  = Some (apps sample_stores)
  ∧ search_results sample_stores (query [("keyword", "xyz")]) = Some [].
Proof. split; vm_compute; reflexivity. Qed.

(** ** The manager's page *)

Lemma admin_page_rows unknown_owner w req g name u :
  authenticated w req = Some (name, u) → may_manage u = true →
  admin_page_get_route unknown_owner w req g
  = (AdminPage (args req !! "message")
       (display_row unknown_owner (role u) (Some name) <$> apps w), w, g).
Proof.
  intros Hauth Hmay.
  destruct (authenticated_user _ _ _ _ Hauth) as [Hlog Hu].
  unfold admin_page_get_route. rewrite has_role_any_manager, Hauth, Hmay.
  unfold admin_page_get, load_apps, load_config. rewrite Hlog. simpl.
  by rewrite Hu.
Qed.

(** X25: the manager's page lists every app of the catalog, one row each
    and in catalog order, to every manager and super user.  The owner of a
    row is the entry's, null for an owner key that holds null, and the
    placeholder text for an entry without the key.  The SN column shows
    the entry's SN codes (or the public label when it has none) only to a
    super user and to the user whose name is the row's owner, which for an
    entry without owner key is a user named like the placeholder; it shows
    the hidden label to everybody else. *)
Theorem admin_page_sn_column (unknown_owner : string) (w : stores) (req : request)
    (g : rng) (name : string) (u : user) :
  authenticated w req = Some (name, u) →
  may_manage u = true →
  ∃ rows,
    admin_page_get_route unknown_owner w req g
    = (AdminPage (args req !! "message") rows, w, g)
    ∧ length rows = length (apps w)
    ∧ ∀ i e, apps w !! i = Some e →
        ∃ row, rows !! i = Some row ∧ d_app row = e ∧ d_id row = str_id e
          ∧ d_owner row = get_or "owner" e_owner e unknown_owner
          ∧ (role u ≠ Some "super" → d_owner row ≠ Some name →
             d_allowedSn row = HiddenLabel)
          ∧ (role u = Some "super" ∨ d_owner row = Some name →
             d_allowedSn row = match e_allowedSn e with
                               | Some (sn :: l) => SnCodes (sn :: l)
                               | _ => PublicLabel
                               end).
Proof.
  intros Hauth Hmay. eexists. split; [by apply admin_page_rows|].
  split; [by rewrite length_fmap|].
  intros i e He. eexists. split; [by rewrite list_lookup_fmap, He|].
  unfold display_row. simpl. repeat split.
  - intros Hsuper Hown. rewrite (bool_decide_eq_false_2 _ Hsuper). simpl.
    by rewrite (bool_decide_eq_false_2 _ Hown).
  - intros [Hsuper|Hown].
    + by rewrite (bool_decide_eq_true_2 _ Hsuper).
    + rewrite (bool_decide_eq_true_2 _ Hown). by rewrite orb_true_r.
Qed.

Lemma admin_page_sn_column_witness :
  let w := save_apps [sample_app 1 "manager_user" (Some ["S1"])] sample_stores in
  ∃ rows,
    admin_page_get_route "unknown" w (post "second_manager" "pw2" []) stuck_rng
    = (AdminPage None rows, w, stuck_rng)
    ∧ length rows = 1%nat
    ∧ ∃ row, rows !! 0%nat = Some row ∧ d_allowedSn row = HiddenLabel.
Proof.
  intros w.
  destruct (admin_page_sn_column "unknown" w (post "second_manager" "pw2" [])
              stuck_rng "second_manager"
              {| password := "pw2"; role := Some "manager";
                 max_apps := Some 2; owns_apps := Some 2 |})
    as (rows & Hpage & Hlen & Hrows).
  - vm_compute. reflexivity.
  - vm_compute. reflexivity.
  - exists rows. split; [exact Hpage|]. split; [exact Hlen|].
    destruct (Hrows 0%nat (sample_app 1 "manager_user" (Some ["S1"])))
      as (row & Hrow & _ & _ & Hown & Hhidden & _); [reflexivity|].
    exists row. split; [exact Hrow|]. apply Hhidden.
    + discriminate.
    + rewrite Hown. discriminate.
Defined.

Example admin_page_ex :
  let w := save_apps [sample_app 1 "manager_user" (Some ["S1"]);
                      sample_app 2 "second_manager" None] sample_stores in
  (d_allowedSn <$>
     match (admin_page_get_route "unknown" w
              (post "second_manager" "pw2" []) stuck_rng).1.1 with
     | AdminPage _ rows => rows
     | _ => []
     end)
  = [HiddenLabel; PublicLabel].
Proof. vm_compute. reflexivity. Qed.

(** A manager whose name is the placeholder text is shown the codes of an
    entry that has no owner key, and not those of an entry whose owner key
    holds null. *)
Example admin_page_placeholder_name :
  let e := sample_app 1 "manager_user" (Some ["S1"]) in
  let ownerless rest :=
    {| e_appId := e_appId e; e_id := e_id e; e_name := e_name e;
       e_appName := e_appName e; e_packageName := e_packageName e;
       e_downloadUrl := e_downloadUrl e; e_iconUrl := e_iconUrl e;
       e_size := e_size e; e_md5 := e_md5 e; e_desc := e_desc e;
       e_updateTime := e_updateTime e; e_owner := None;
       e_allowedSn := e_allowedSn e; e_rest := rest |} in
  let w := {| apps := [ownerless []; ownerless ["owner"]];
              users := <["unknown" := {| password := "pw"; role := Some "manager";
                                         max_apps := None; owns_apps := None |}]> ∅;
              sn_owners := ∅ |} in
  (d_allowedSn <$>
     match (admin_page_get_route "unknown" w (post "unknown" "pw" []) stuck_rng).1.1 with
     | AdminPage _ rows => rows
     | _ => []
     end)
  = [SnCodes ["S1"]; HiddenLabel].
Proof. vm_compute. reflexivity. Qed.

Lemma filter_needs_allowedSn all_apps client_sn e :
  e_allowedSn e = None → e ∉ filter_apps_by_sn all_apps client_sn.
Proof.
  intros Hnone. rewrite filter_apps_by_sn_filter.
  intros [_ Hvis]%list_elem_of_In%filter_In.
  unfold visible in Hvis. rewrite Hnone in Hvis. simpl in Hvis.
  by destruct (Text.truthy _).
Qed.

(** X26: the page and the filter disagree on an entry without allowedSn:
    its owner (and a super user) is shown the public label for it, while no
    client, with or without SN, gets it from the filter. *)
Theorem unset_sn_shown_as_public (unknown_owner : string) (w : stores)
    (req : request) (g : rng)
    (name : string) (u : user) (i : nat) (e : app_entry) :
  authenticated w req = Some (name, u) →
  may_manage u = true →
  apps w !! i = Some e →
  e_allowedSn e = None →
  role u = Some "super" ∨ e_owner e = Some name →
  (∃ rows row,
     admin_page_get_route unknown_owner w req g
     = (AdminPage (args req !! "message") rows, w, g)
     ∧ rows !! i = Some row ∧ d_app row = e ∧ d_allowedSn row = PublicLabel)
  ∧ ∀ client_sn, e ∉ filter_apps_by_sn (apps w) client_sn.
Proof.
  intros Hauth Hmay He Hnone Hsee. split; [|intros sn; by apply filter_needs_allowedSn].
  eexists _, _. split; [by apply admin_page_rows|].
  split; [by rewrite list_lookup_fmap, He|]. split; [done|].
  unfold display_row. simpl. rewrite Hnone.
  destruct Hsee as [Hsuper|Hown].
  - by rewrite (bool_decide_eq_true_2 _ Hsuper).
  - unfold get_or, get_with. rewrite Hown.
    rewrite (bool_decide_eq_true_2 (Some name = Some name)) by done.
    by rewrite orb_true_r.
Qed.

Lemma unset_sn_shown_as_public_witness :
  let w := save_apps [sample_app 2 "second_manager" None] sample_stores in
  sample_app 2 "second_manager" None ∉ filter_apps_by_sn (apps w) "S1".
Proof.
  intros w.
  refine (proj2 (unset_sn_shown_as_public "unknown" w (post "second_manager" "pw2" [])
                   stuck_rng "second_manager"
                   {| password := "pw2"; role := Some "manager";
                      max_apps := Some 2; owns_apps := Some 2 |}
                   0%nat (sample_app 2 "second_manager" None) _ _ _ _ _) "S1").
  - vm_compute. reflexivity.
  - vm_compute. reflexivity.
  - reflexivity.
  - reflexivity.
  - right. reflexivity.
Defined.

(** ** The apk route on a known id *)

(** X27: when some entry's id reads as the requested appId, the apk route
    settles on the first such entry, for any caller and whatever the
    entry's allowedSn: when that entry renders, the answer is its id,
    package name, link, size and checksum (null for a link or checksum
    that holds null); when it does not, the route raises. *)
Theorem apk_details_found (int : string → option Z) (w : stores) (req : request)
    (g : rng) (e : app_entry) (n : Z) :
  next_match (λ app_data, eqb_str (str_id app_data) (str_opt (args req !! "appId")))
    (apps w) = Some e →
  e_id e = Some n →
  (apk_details int w req g).1
  = if renders int e
    then ApkSucc {| a_id := n;
                    a_apkName := default "" (package_name e);
                    a_url := get_or "downloadUrl" e_downloadUrl e "";
                    a_size := size_bytes int e;
                    a_md5 := get_or "md5" e_md5 e "" |}
    else ApkRaised.
Proof.
  intros He Hid. unfold apk_details, load_apps. cbv zeta. rewrite He. simpl.
  rewrite id_dict_truthy by (by rewrite Hid). simpl.
  rewrite map_app_fields_spec.
  destruct (renders int e); simpl; [|done].
  unfold mapped. simpl. by rewrite Hid.
Qed.

Lemma apk_details_found_witness :
  let w := save_apps [sample_app 1 "manager_user" (Some []);
                      sample_app 2 "manager_user" (Some ["S1"])] sample_stores in
  (apk_details digits_int w (query [("appId", "2")]) stuck_rng).1
  = ApkSucc {| a_id := 2; a_apkName := "com.mt.manager";
               a_url := Some "http://154.9.228.196:8080/static/mt.apk";
               a_size := 259634232;
               a_md5 := Some "c783de55addbf3cf3606f825fd784aee" |}.
Proof.
  intros w.
  refine (apk_details_found digits_int w (query [("appId", "2")]) stuck_rng
            (sample_app 2 "manager_user" (Some ["S1"])) 2 _ _).
  - vm_compute. reflexivity.
  - reflexivity.
Defined.

(** ** Ids as text *)

Lemma to_int_not_nil (n : Z) :
  Z.to_int n ≠ Decimal.Pos Decimal.Nil ∧ Z.to_int n ≠ Decimal.Neg Decimal.Nil.
Proof.
  split; intros Heq; pose proof (DecimalZ.of_to n) as Hn; rewrite Heq in Hn;
    simpl in Hn; subst n; discriminate Heq.
Qed.

Lemma str_parse (n : Z) :
  NilZero.int_of_string (Text.str n) = Some (Z.to_int n).
Proof.
  destruct (to_int_not_nil n). by apply NilZero.isi.
Qed.

Lemma str_inj (n m : Z) : Text.str n = Text.str m → n = m.
Proof.
  intros Heq. apply DecimalZ.to_int_inj.
  pose proof (str_parse n) as Hn. rewrite Heq, str_parse in Hn. congruence.
Qed.

Lemma str_not_None (n : Z) : Text.str n ≠ "None".
Proof.
  intros Heq. pose proof (str_parse n) as Hn. rewrite Heq in Hn. discriminate Hn.
Qed.

Lemma str_not_empty (n : Z) : Text.str n ≠ "".
Proof.
  intros Heq. pose proof (str_parse n) as Hn. rewrite Heq in Hn. discriminate Hn.
Qed.

Lemma str_id_eq e n : str_id e = Text.str n ↔ e_id e = Some n.
Proof.
  unfold str_id. destruct (e_id e) as [m|].
  - split; [intros ?%str_inj; congruence|by intros [= ->]].
  - split; [|done]. intros Heq. symmetry in Heq. by apply str_not_None in Heq.
Qed.

(** ** Add, then delete *)

Lemma authenticated_same_auth w req req2 :
  authorization req2 = authorization req →
  authenticated w req2 = authenticated w req.
Proof. unfold authenticated. by intros ->. Qed.

Lemma fresh_id_no_match (all_apps : list app_entry) (n : Z) :
  Some n ∉ e_id <$> all_apps →
  next_match (λ app, eqb_str (str_id app) (Text.str n)) all_apps = None.
Proof.
  intros Hfresh. apply next_match_none_iff. intros e He. unfold eqb_str.
  apply bool_decide_eq_false_2. rewrite str_id_eq. intros Hid.
  apply Hfresh. rewrite <- Hid. by apply list_elem_of_fmap_2.
Qed.

Lemma next_match_app_r {A} (p : A → bool) (l : list A) (x : A) :
  next_match p l = None → p x = true → next_match p (l ++ [x]) = Some x.
Proof.
  induction l as [|y l IH]; simpl; [by intros _ ->|].
  destruct (p y); [done|]. apply IH.
Qed.

Lemma set_owns_apps_same u n : owns_apps u = Some n → set_owns_apps n u = u.
Proof. destruct u. simpl. by intros ->. Qed.

Lemma save_apps_same w : save_apps (apps w) w = w.
Proof. by destruct w. Qed.

Lemma add_delete_stores w name u e :
  users w !! name = Some u → may_manage u = true →
  role u = Some "super" ∨ (∃ n, owns_apps u = Some n ∧ 0 ≤ n) →
  decrement_owner (Some name)
    (save_apps (apps w)
       (append_and_count w (Some name) (Some u) (default 0 (owns_apps u)) e))
  = w.
Proof.
  intros Hu Hmay Hcase.
  unfold may_manage in Hmay. apply orb_true_iff in Hmay as [Hrole|Hrole];
    apply bool_decide_eq_true in Hrole.
  - unfold append_and_count, role_is, decrement_owner, load_config, load_apps.
    simpl. rewrite Hrole. simpl. rewrite Hu, Hrole. simpl.
    by destruct w.
  - destruct Hcase as [Hsuper|(n & Hn & Hpos)]; [congruence|].
    unfold append_and_count, role_is, decrement_owner, load_config, load_apps.
    simpl. rewrite Hrole. simpl. rewrite lookup_insert_eq. simpl.
    rewrite Hrole. simpl. rewrite insert_insert_eq, Hn. simpl.
    replace (Z.max 0 (n + 1 - 1)) with n by lia.
    change (set_owns_apps n (set_owns_apps (n + 1) u)) with (set_owns_apps n u).
    rewrite (set_owns_apps_same u n Hn), (insert_id _ _ _ Hu).
    by destruct w.
Qed.

(** X28: add, then delete.  When an add has succeeded with an id that no
    entry had before, the same user's delete of that id, as the page prints
    it, succeeds and gives back the former catalog; for a super user, and
    for a manager whose counter was a number not below 0, it gives back the
    former stores altogether. *)
Theorem add_then_delete (w : stores) (req : request) (g : rng)
    (e : app_entry) (w' : stores) (g' : rng) (name : string) (u : user)
    (id : Z) (req2 : request) (g2 : rng) :
  add_app_route w req g = (Added e, w', g') →
  authenticated w req = Some (name, u) →
  e_id e = Some id →
  Some id ∉ e_id <$> apps w →
  authorization req2 = authorization req →
  form req2 !! "app_id_to_delete" = Some (Text.str id) →
  ∃ w'',
    delete_app_route w' req2 g2 = (Deleted (Text.str id), w'', g2)
    ∧ apps w'' = apps w
    ∧ sn_owners w'' = sn_owners w
    ∧ (role u = Some "super" ∨ (∃ n, owns_apps u = Some n ∧ 0 ≤ n) → w'' = w).
Proof.
  intros Hroute Hauth Hid Hfresh Hsame Hform.
  assert (∀ n, account_settings <$> users w' !! n
               = account_settings <$> users w !! n) as Hset.
  { intros n. pose proof (has_role_settings "manager" add_app w req g n
                            (add_app_settings w req g n)) as H.
    unfold add_app_route in Hroute. by rewrite Hroute in H. }
  apply route_inv in Hroute as [Hadd (name0 & u0 & Hauth0 & Hmay)]; [|done].
  rewrite Hauth in Hauth0. injection Hauth0 as <- <-.
  destruct (authenticated_user _ _ _ _ Hauth) as [Hlog Hu].
  pose proof (add_app_added _ _ _ _ _ _ _ _ Hlog Hu Hadd) as Hw'.
  apply add_app_added_fields in Hadd
    as (Howner & _ & _ & _ & _ & _ & _ & _ & _ & Happs).
  rewrite Hlog in Howner.
  destruct (authenticated_settings w w' req name u Hset Hauth)
    as (u' & Hauth' & Hu').
  rewrite <- (authenticated_same_auth w' req req2 Hsame) in Hauth'.
  pose proof (fresh_id_no_match _ _ Hfresh) as Hnone.
  assert (eqb_str (str_id e) (Text.str id) = true) as He.
  { unfold eqb_str. apply bool_decide_eq_true_2. by apply str_id_eq. }
  assert (List.filter (λ app, negb (eqb_str (str_id app) (Text.str id))) (apps w')
          = apps w) as Hfilter.
  { rewrite Happs, list_filter_app, (next_match_None _ _ Hnone). simpl.
    rewrite He. simpl. apply app_nil_r. }
  eexists. unfold delete_app_route.
  rewrite has_role_manager, Hauth', (may_manage_settings _ _ Hu'), Hmay.
  destruct (authenticated_user _ _ _ _ Hauth') as [Hlog' Hu1].
  rewrite (delete_app_found w' req2 g2 name u' (Text.str id) e); try done.
  - rewrite (bool_decide_eq_true_2 _ Howner). simpl. split; [done|].
    rewrite (proj1 (decrement_owner_keeps _ _)), (proj2 (decrement_owner_keeps _ _)).
    simpl. split; [done|]. split; [by rewrite Hw', append_and_count_sn_owners|].
    intros Hcase. rewrite Hfilter, Howner.
    assert (save_apps (apps w) w'
            = save_apps (apps w)
                (append_and_count w (Some name) (Some u)
                   (default 0 (owns_apps u)) e)) as -> by (by rewrite Hw').
    by apply add_delete_stores.
  - apply str_not_empty.
  - rewrite Happs. by apply next_match_app_r.
  - apply id_dict_truthy. by rewrite Hid.
Qed.

Lemma add_then_delete_witness :
  let req := post "manager_user" "app_manager_123" (add_form "5" "") in
  let req2 := post "manager_user" "app_manager_123" [("app_id_to_delete", "5")] in
  ∃ w'',
    delete_app_route (add_app_route sample_stores req stuck_rng).1.2 req2 stuck_rng
    = (Deleted "5", w'', stuck_rng)
    ∧ apps w'' = apps sample_stores.
Proof.
  intros req req2.
  destruct (add_then_delete sample_stores req stuck_rng
              (added_entry 5 "manager_user" [])
              (add_app_route sample_stores req stuck_rng).1.2
              (add_app_route sample_stores req stuck_rng).2
              "manager_user"
              {| password := "app_manager_123"; role := Some "manager";
                 max_apps := Some 10; owns_apps := Some 0 |}
              5 req2 stuck_rng) as (w'' & Hdel & Happs & _).
  - vm_compute. reflexivity.
  - vm_compute. reflexivity.
  - reflexivity.
  - vm_compute. intros Hin.
    apply elem_of_cons in Hin as [Hin|Hin]; [discriminate Hin|].
    by apply elem_of_nil in Hin.
  - reflexivity.
  - reflexivity.
  - exists w''. split; [exact Hdel|exact Happs].
Defined.

(** ** Filling the quota *)

(** X29: the add that brings a manager's counter up to the limit is the
    last one: the manager's next add, with the upload fields filled in, is
    refused with QuotaExceeded and changes nothing. *)
Theorem add_until_full (w : stores) (req : request) (g : rng)
    (e : app_entry) (w' : stores) (g' : rng) (name : string) (u : user)
    (req2 : request) (g2 : rng) :
  add_app_route w req g = (Added e, w', g') →
  authenticated w req = Some (name, u) →
  role u = Some "manager" →
  default 0 (owns_apps u) + 1 = default 9999 (max_apps u) →
  authorization req2 = authorization req →
  file_info_complete req2 = true →
  add_app_route w' req2 g2 = (QuotaExceeded (default 9999 (max_apps u)), w', g2).
Proof.
  intros Hroute Hauth Hrole Hfull Hsame Hfile.
  destruct (authenticated_user _ _ _ _ Hauth) as [Hlog Hu].
  apply route_inv in Hroute as [Hadd _]; [|done].
  pose proof (add_app_added _ _ _ _ _ _ _ _ Hlog Hu Hadd) as Hw'.
  rewrite append_and_count_manager in Hw' by done.
  set (u' := set_owns_apps (default 0 (owns_apps u) + 1) u) in *.
  assert (users w' !! name = Some u') as Hu'.
  { rewrite Hw'. simpl. apply lookup_insert_eq. }
  assert (authenticated w' req2 = Some (name, u')) as Hauth'.
  { rewrite (authenticated_same_auth w' req req2 Hsame).
    revert Hauth. unfold authenticated.
    destruct (authorization req) as [[username pw]|]; [|done].
    destruct (users w !! username) as [u0|] eqn:Hu0; [|done].
    destruct (eqb_str (password u0) pw) eqn:Hpw; [|done].
    intros [= -> ->]. rewrite Hu'. simpl. by rewrite Hpw. }
  destruct (authenticated_user _ _ _ _ Hauth') as [Hlog' _].
  unfold add_app_route. rewrite has_role_manager, Hauth'.
  unfold may_manage. simpl. rewrite Hrole. simpl.
  rewrite (add_app_quota_step w' req2 g2 name u') by done.
  simpl. rewrite Hrole. simpl.
  rewrite (proj2 (Z.leb_le _ _)) by lia. done.
Qed.

Lemma add_until_full_witness :
  let w := save_config
             (<["second_manager" := {| password := "pw2"; role := Some "manager";
                                       max_apps := Some 2; owns_apps := Some 1 |}]>
                sample_users) sample_stores in
  let req := post "second_manager" "pw2" (add_form "5" "") in
  let w' := (add_app_route w req stuck_rng).1.2 in
  add_app_route w' (post "second_manager" "pw2" (add_form "6" "")) stuck_rng
  = (QuotaExceeded 2, w', stuck_rng).
Proof.
  intros w req w'.
  refine (add_until_full w req stuck_rng (added_entry 5 "second_manager" [])
            w' (add_app_route w req stuck_rng).2 "second_manager"
            {| password := "pw2"; role := Some "manager";
               max_apps := Some 2; owns_apps := Some 1 |}
            (post "second_manager" "pw2" (add_form "6" "")) stuck_rng
            _ _ _ _ _ _).
  - vm_compute. reflexivity.
  - vm_compute. reflexivity.
  - reflexivity.
  - reflexivity.
  - reflexivity.
  - vm_compute. reflexivity.
Defined.
